(** * S3 size scripts: a shallow embedding and its verified properties

  The development follows the Python scripts under [getS3Size/]:
  - [s3_folder_sizes.py]            (module [S3FolderSizes])
  - [s3_folder_sizes_2level.py]     (module [S3FolderSizes2Level])
  - [s3_bucket_sizes_cli.py]        (module [S3BucketSizesCli])
  - [s3_bucket_sizes_fast.py]       (module [S3BucketSizesFast])
  - [s3_bucket_sizes_with_folder.py] (module [S3BucketSizesWithFolder])

  Python values are modelled as follows: [int] is [Z]; [str] is [string],
  one [ascii] standing for one character (a code point below 256); a
  [dict] with string keys is a [gmap string _]; a [float] that is finite
  is the rational it denotes ([Q]); the result of a call is an [outcome]
  (a value, an exception, or [sys.exit]); what a script prints is a list
  of [line]s. *)

From stdpp Require Import gmap strings list fin_maps pretty sorting.
From Stdlib Require Import ZArith QArith Qround Qabs Ascii Lia Lqa.

Open Scope Z_scope.

(** ** Python base semantics used by the scripts *)

Module Py.

(** An exception object; only its message is observable in the scripts
    (they print it with [{e}]). *)
Record exn := Exn { message : string }.

(** Result of evaluating a Python call. [Raise] carries an exception
    derived from [Exception]; [Exit] is [SystemExit] raised by
    [sys.exit(code)], which [except Exception] does not catch. *)
Inductive outcome (A : Type) : Type :=
| Return (a : A)
| Raise (e : exn)
| Exit (code : Z).
Arguments Return {A} a.
Arguments Raise {A} e.
Arguments Exit {A} code.

Definition bind {A B} (m : outcome A) (k : A → outcome B) : outcome B :=
  match m with
  | Return a => k a
  | Raise e => Raise e
  | Exit c => Exit c
  end.

#[global] Instance outcome_ret : MRet outcome := @Return.
#[global] Instance outcome_bind : MBind outcome := λ A B k m, bind m k.

(** [try: m  except Exception as e: h e] *)
Definition try_except {A} (m : outcome A) (h : exn → outcome A) : outcome A :=
  match m with
  | Raise e => h e
  | _ => m
  end.

(** Truthiness of a [str] and of a [list]. *)
Definition str_truthy (s : string) : bool :=
  match s with EmptyString => false | _ => true end.

Definition list_truthy {A} (l : list A) : bool :=
  match l with [] => false | _ => true end.

(** [c in s] for a one-character string [c]. *)
Fixpoint contains_char (c : ascii) (s : string) : bool :=
  match s with
  | EmptyString => false
  | String d s' => if Ascii.eqb d c then true else contains_char c s'
  end.

(** [s[n:]] for [n >= 0]. *)
Fixpoint str_drop (n : nat) (s : string) : string :=
  match n, s with
  | O, _ => s
  | S n', String _ s' => str_drop n' s'
  | S _, EmptyString => EmptyString
  end.

(** [s[:n]] for [n >= 0]. *)
Fixpoint str_take (n : nat) (s : string) : string :=
  match n, s with
  | O, _ => EmptyString
  | S n', String c s' => String c (str_take n' s')
  | S _, EmptyString => EmptyString
  end.

(** [s.startswith(p)] *)
Fixpoint startswith (p s : string) : bool :=
  match p, s with
  | EmptyString, _ => true
  | String a p', String b s' => if Ascii.eqb a b then startswith p' s' else false
  | String _ _, EmptyString => false
  end.

(** [s.endswith(c)] for a one-character string [c]. *)
Fixpoint endswith_char (c : ascii) (s : string) : bool :=
  match s with
  | EmptyString => false
  | String d EmptyString => Ascii.eqb d c
  | String _ s' => endswith_char c s'
  end.

(** [s.split(sep)] for a one-character separator: never an empty list;
    [n] separators give [n + 1] parts. *)
Fixpoint split (sep : ascii) (s : string) : list string :=
  match s with
  | EmptyString => [EmptyString]
  | String c s' =>
      if Ascii.eqb c sep then EmptyString :: split sep s'
      else match split sep s' with
           | p :: ps => String c p :: ps
           | [] => [String c EmptyString]
           end
  end.

(** [s.split(sep, 1)]: at most one split, at the first separator. *)
Fixpoint split1 (sep : ascii) (s : string) : list string :=
  match s with
  | EmptyString => [EmptyString]
  | String c s' =>
      if Ascii.eqb c sep then [EmptyString; s']
      else match split1 sep s' with
           | p :: ps => String c p :: ps
           | [] => [String c EmptyString]
           end
  end.

(** [sep.join(parts)] *)
Fixpoint join (sep : string) (parts : list string) : string :=
  match parts with
  | [] => EmptyString
  | [p] => p
  | p :: ps => p +:+ sep +:+ join sep ps
  end.

(** [l[i]] for [i >= 0]: [IndexError] out of range. *)
Definition index {A} (l : list A) (i : nat) : outcome A :=
  match l !! i with
  | Some x => Return x
  | None => Raise (Exn "list index out of range")
  end.

(** [l[:stop]] with Python's treatment of a negative bound. *)
Definition slice_to {A} (l : list A) (stop : Z) : list A :=
  if stop <? 0 then take (Z.to_nat (Z.of_nat (length l) + stop)) l
  else take (Z.to_nat stop) l.

End Py.

Import Py.

(** ** More of [str]: case, whitespace, substrings, decimal digits *)

Module PyStr.

Definition code (c : ascii) : N := N_of_ascii c.

(** [str.isspace] on one character, which is also the regex class [\s]:
    tab to carriage return, the separators 0x1c-0x1f, space, NEL, NBSP. *)
Definition is_space (c : ascii) : bool :=
  let n := code c in
  ((9 <=? n) && (n <=? 13) || (28 <=? n) && (n <=? 32)
   || (n =? 133) || (n =? 160))%N.

(** The regex class [\d]: below code point 256 the decimal digits are
    ['0'] to ['9'] only. *)
Definition is_digit (c : ascii) : bool :=
  let n := code c in ((48 <=? n) && (n <=? 57))%N.

(** One character of [str.lower]: A-Z, and the Latin-1 capitals. *)
Definition lower_char (c : ascii) : ascii :=
  let n := code c in
  if ((65 <=? n) && (n <=? 90)
      || (192 <=? n) && (n <=? 222) && negb (n =? 215))%N
  then ascii_of_N (n + 32) else c.

Fixpoint lower (s : string) : string :=
  match s with
  | EmptyString => EmptyString
  | String c s' => String (lower_char c) (lower s')
  end.

(** [sub in s] *)
Fixpoint contains (sub s : string) : bool :=
  if startswith sub s then true
  else match s with
       | EmptyString => false
       | String _ s' => contains sub s'
       end.

Fixpoint lstrip (s : string) : string :=
  match s with
  | String c s' => if is_space c then lstrip s' else s
  | EmptyString => EmptyString
  end.

Fixpoint rstrip (s : string) : string :=
  match s with
  | EmptyString => EmptyString
  | String c s' =>
      match rstrip s' with
      | EmptyString => if is_space c then EmptyString else String c EmptyString
      | r => String c r
      end
  end.

(** [s.strip()] *)
Definition strip (s : string) : string := rstrip (lstrip s).

(** [int(s)] on a string of decimal digits (as captured by [\d+]). *)
Definition digit_value (c : ascii) : Z := Z.of_N (code c) - 48.

Fixpoint int_of_digits_from (acc : Z) (s : string) : Z :=
  match s with
  | EmptyString => acc
  | String c s' => int_of_digits_from (10 * acc + digit_value c) s'
  end.

Definition int_of_digits (s : string) : Z := int_of_digits_from 0 s.

End PyStr.

Import PyStr.

(** ** The fragment of [re] the scripts use

    A pattern is a sequence of items: a greedy bounded repetition of a
    one-character class (a literal character is the class of that
    character repeated exactly once), possibly a capture group, and the
    anchors [^] and [$] (without [re.MULTILINE]). Matching backtracks
    from the longest repetition downwards, as [re] does. *)

Module Re.

Inductive item : Type :=
| Rep (cls : ascii → bool) (min : nat) (max : option nat) (group : bool)
| Bol
| Eol.

Definition pattern := list item.

Definition lit (c : ascii) : item := Rep (Ascii.eqb c) 1 (Some 1%nat) false.

Fixpoint lits (s : string) : pattern :=
  match s with
  | EmptyString => []
  | String c s' => lit c :: lits s'
  end.

(** [.] without [re.DOTALL]: anything but a newline. *)
Definition dot (c : ascii) : bool := negb (Ascii.eqb c "010").

(** Length of the longest prefix of [s] in class [cls], capped by [max]. *)
Fixpoint run (cls : ascii → bool) (max : option nat) (s : string) : nat :=
  match max, s with
  | Some O, _ => O
  | _, EmptyString => O
  | _, String c s' =>
      if cls c then S (run cls (pred <$> max) s') else O
  end.

(** Try [k n], [k (n-1)], ... down to [k min]; first success wins. *)
Fixpoint longest_first {A} (n min : nat) (k : nat → option A) : option A :=
  if (n <? min)%nat then None
  else match k n with
       | Some r => Some r
       | None => match n with
                 | O => None
                 | S n' => longest_first n' min k
                 end
       end.

(** Match [re] at the current position: [at_start] tells whether that
    position is the beginning of the subject, [s] is the rest of the
    subject, [groups] the captures so far. *)
Fixpoint match_here (re : pattern) (at_start : bool) (s : string)
    (groups : list string) : option (list string) :=
  match re with
  | [] => Some groups
  | Bol :: re' => if at_start then match_here re' at_start s groups else None
  | Eol :: re' =>
      match s with
      | EmptyString | String "010" EmptyString => match_here re' at_start s groups
      | _ => None
      end
  | Rep cls min max group :: re' =>
      longest_first (run cls max s) min (λ n,
        match_here re' (at_start && (n =? 0)%nat) (str_drop n s)
          (if group then groups ++ [str_take n s] else groups))
  end.

(** [re.match(re, s)]: the groups of the match at position 0, if any. *)
Definition re_match (re : pattern) (s : string) : option (list string) :=
  match_here re true s [].

(** [re.search(re, s)]: the leftmost match. *)
Fixpoint search_from (re : pattern) (at_start : bool) (s : string)
    : option (list string) :=
  match match_here re at_start s [] with
  | Some g => Some g
  | None => match s with
            | EmptyString => None
            | String _ s' => search_from re false s'
            end
  end.

Definition re_search (re : pattern) (s : string) : option (list string) :=
  search_from re true s.

End Re.

(** ** What the scripts print *)

Module Console.

(** One printed line, by the [print] call that produces it, with the
    values interpolated into it. Banners and rulers that carry no data
    are left out. *)
Inductive line : Type :=
| ErrorListingBuckets (e : exn)
| MetricsWarning (bucket_name : string) (e : exn)
| WorkerProgress (bucket_index total_buckets : Z) (bucket_name size : string)
| ErrorProcessing (bucket_name : string) (e : exn)
| CredentialsVerified
| CredentialsError (e : exn)
| NoBucketsFound
| BucketsFound (n : Z)
| SummaryRow (bucket_name size : string)
| SummaryTotal (size : string)
| AnalysingObjects (bucket_name folder_path : string)
| ObjectsProgress (object_count : Z) (size : string)
| FolderError (folder_path bucket_name : string) (e : exn)
| CliAccessError (bucket_name stderr : string)
| CliTimeout (bucket_name : string)
| CliNotInstalled
| CliProcessingError (bucket_name : string) (e : exn)
| CliVersion (version : string)
| CliUnavailable
| CliProgress (i total : Z) (bucket_name size : string)
| InvalidBucketName (bucket : string)
| Analysing (bucket prefix : string)
| NoObjectsFound
| FolderReport (sizes : gmap string Z)
| Usage.

(** A computation that prints: its outcome and the lines printed up to
    the point where it returned, raised or exited. *)
Record io (A : Type) : Type := IO { result : outcome A; printed : list line }.
Arguments IO {A} result printed.
Arguments result {A} _.
Arguments printed {A} _.

#[global] Instance io_ret : MRet io := λ A a, IO (Return a) [].
#[global] Instance io_bind : MBind io := λ A B k m,
  match result m with
  | Return a => IO (result (k a)) (printed m ++ printed (k a))
  | Raise e => IO (Raise e) (printed m)
  | Exit c => IO (Exit c) (printed m)
  end.

Definition print (l : line) : io unit := IO (Return ()) [l].

Definition lift {A} (o : outcome A) : io A := IO o [].

(** [sys.exit(code)] *)
Definition sys_exit {A} (code : Z) : io A := IO (Exit code) [].

(** [try: m  except Exception as e: h e] *)
Definition try_catch {A} (m : io A) (h : exn → io A) : io A :=
  match result m with
  | Raise e => IO (result (h e)) (printed m ++ printed (h e))
  | _ => m
  end.

End Console.

Import Console.

(** ** Python [float] and number formatting, as [format_size] uses them *)

Module PyFloat.

(** The nearest integer with a 53-bit significand, ties to even: the
    value of the binary64 float nearest to the non-negative integer [m]. *)
Definition round_to_53_bits (m : Z) : Z :=
  let e := Z.log2 m in
  if e <? 53 then m
  else
    let s := e - 52 in
    let q := Z.shiftr m s in
    let r := Z.land m (Z.ones s) in
    let half := Z.shiftl 1 (s - 1) in
    let q' := if (half <? r) || ((r =? half) && Z.odd q) then q + 1 else q in
    Z.shiftl q' s.

(** [float(n)] for an [int]: [OverflowError] when the nearest float would
    be 2^1024 or more. The result, an integer-valued float, is given as
    the rational it denotes. *)
Definition float_of_int (n : Z) : outcome Q :=
  let a := round_to_53_bits (Z.abs n) in
  if 2 ^ 1024 <=? a then Raise (Exn "int too large to convert to float")
  else Return (inject_Z (Z.sgn n * a)).

(** [int(x)] for a finite float: truncation towards zero. *)
Definition int_of_float (x : Q) : Z := Z.quot (Qnum x) (Z.pos (Qden x)).

(** Nearest integer, ties to even. *)
Definition round_half_even (x : Q) : Z :=
  let f := Qfloor x in
  match (x - inject_Z f ?= 1 # 2)%Q with
  | Lt => f
  | Gt => f + 1
  | Eq => if Z.even f then f else f + 1
  end.

(** The number of hundredths shown by [f"{x:.2f}"]. *)
Definition hundredths (x : Q) : Z := round_half_even (Qabs x * 100)%Q.

(** [f"{x:.2f}"]: the exact value correctly rounded to two decimals. *)
Definition format_2f (x : Q) : string :=
  let c := hundredths x in
  (if Qle_bool 0 x then "" else "-")
    +:+ pretty (c / 100) +:+ "."
    +:+ pretty (c mod 100 / 10) +:+ pretty (c mod 10).

End PyFloat.

Import PyFloat.

(** ** [format_size], shared by the three bucket-size scripts

    The three copies differ only in their [units] list. *)

Module Format.

(** [while size >= 1024 and unit_index < len(units) - 1: ...]. Dividing a
    float by 1024 only lowers its exponent, so the quotient is exact. The
    loop runs at most [len(units) - 1] times; [fuel] bounds the
    iterations (see [scale_fuel_enough]). *)
Fixpoint scale (fuel : nat) (units : list string) (size : Q) (unit_index : nat)
    : Q * nat :=
  match fuel with
  | O => (size, unit_index)
  | S fuel' =>
      if Qle_bool 1024 size && (Z.of_nat unit_index <? Z.of_nat (length units) - 1)
      then scale fuel' units (size / 1024)%Q (unit_index + 1)
      else (size, unit_index)
  end.

Definition format_size_units (units : list string) (size_bytes : Z) : outcome string :=
  if size_bytes =? 0 then Return "0 B"
  else
    size ← float_of_int size_bytes;
    let '(size, unit_index) := scale (length units) units size 0 in
    unit ← index units unit_index;
    if (unit_index =? 0)%nat
    then Return (pretty (int_of_float size) +:+ " " +:+ unit)
    else Return (format_2f size +:+ " " +:+ unit).

End Format.

(** ** The AWS side, as the scripts see it *)

Module Aws.

(** The answer of a service request: a response or an exception. *)
Inductive reply (A : Type) : Type :=
| Ok (a : A)
| Err (e : exn).
Arguments Ok {A} a.
Arguments Err {A} e.

Definition call {A} (r : reply A) : outcome A :=
  match r with
  | Ok a => Return a
  | Err e => Raise e
  end.

(** [boto3.client(...)]: raises when [client_error] says so. *)
Definition client (client_error : option exn) : outcome unit :=
  match client_error with
  | Some e => Raise e
  | None => Return ()
  end.

(** One entry of [page['Contents']]. *)
Record s3_object := { Key : string; Size : Z }.

(** What iterating [paginator.paginate(Bucket=..., Prefix=...)] delivers:
    pages one after the other (each with or without a ['Contents'] entry),
    until the listing is exhausted or a request raises. *)
Inductive pages : Type :=
| Exhausted
| Page (contents : option (list s3_object)) (rest : pages)
| Failed (e : exn).

(** The S3 service for one run: [boto3.client('s3')] may raise
    ([client_error]); [list_buckets] answers with the ['Name'] of each
    entry of [response['Buckets']], in order; object listings are answered
    by [list_objects_v2 bucket prefix]. *)
Record s3 := {
  client_error : option exn;
  list_buckets : reply (list string);
  list_objects_v2 : string → string → pages;
}.

(** One entry of [response['Datapoints']]: the timestamp (seconds) and
    the ['Average'] statistic, a finite float. *)
Record datapoint := { Timestamp : Z; Average : Q }.

(** [get_bucket_size_cloudwatch] queries the metric at two places: once
    for the default tier, and once per storage class in the fallback
    loop. The service may answer the two differently. *)
Inductive call_site : Type := Primary | Fallback.

(** CloudWatch for one run. [get_metric_statistics site bucket storage]
    answers the query for namespace AWS/S3, metric BucketSizeBytes,
    dimensions BucketName = [bucket] and StorageType = [storage], period
    86400, statistic Average, over the last two days. *)
Record cloudwatch := {
  cw_client_error : option exn;
  get_metric_statistics : call_site → string → string → reply (list datapoint);
}.

(** [subprocess.run(cmd, capture_output=True, text=True, timeout=...)] *)
Inductive run_result : Type :=
| Completed (returncode : Z) (stdout stderr : string)
| TimeoutExpired
| FileNotFoundError
| OtherError (e : exn).

Definition subprocess := list string → option Z → run_result.

End Aws.

Import Aws.

(** ** Bucket-name validation, the same in both folder scripts *)

Module Validation.

(** The class [[a-z0-9.\-_]]. *)
Definition bucket_char (c : ascii) : bool :=
  let n := code c in
  ((97 <=? n) && (n <=? 122) || (48 <=? n) && (n <=? 57)
   || (n =? 46) || (n =? 45) || (n =? 95))%N.

(** [BUCKET_REGEX = r'^[a-z0-9.\-_]{3,63}$'] *)
Definition BUCKET_REGEX : Re.pattern :=
  [Re.Bol; Re.Rep bucket_char 3 (Some 63%nat) false; Re.Eol].

(** [if not re.match(BUCKET_REGEX, bucket): print(...); sys.exit(1)] *)
Definition validate (bucket : string) : io unit :=
  match Re.re_match BUCKET_REGEX bucket with
  | None => _ ← print (InvalidBucketName bucket); sys_exit 1
  | Some _ => mret ()
  end.

(** [parse_bucket_and_prefix] *)
Definition parse_bucket_and_prefix (arg : string) : outcome (string * string) :=
  let parts := split1 "/" arg in
  bucket ← index parts 0;
  if decide (1 < length parts)%nat
  then (p ← index parts 1; Return (bucket, p +:+ "/"))
  else Return (bucket, "").

End Validation.

(** ** s3_folder_sizes.py *)

Module S3FolderSizes.

(** The loop body's choice of [folder] for one key (lines 23-25). *)
Definition folder_of (prefix key : string) : outcome string :=
  let stripped_key :=
    if str_truthy prefix then str_drop (String.length prefix) key else key in
  let parts := split "/" stripped_key in
  if contains_char "/" stripped_key then index parts 0 else Return "(root)".

(** [for obj in page.get('Contents', []): ...] on a [defaultdict(int)]. *)
Fixpoint add_objects (prefix : string) (contents : list s3_object)
    (folder_sizes : gmap string Z) : outcome (gmap string Z) :=
  match contents with
  | [] => Return folder_sizes
  | obj :: rest =>
      let key := Key obj in
      let size := Size obj in
      folder ← folder_of prefix key;
      add_objects prefix rest
        (<[folder := default 0 (folder_sizes !! folder) + size]> folder_sizes)
  end.

(** [for page in pages: ...] *)
Fixpoint add_pages (prefix : string) (ps : pages)
    (folder_sizes : gmap string Z) : outcome (gmap string Z) :=
  match ps with
  | Exhausted => Return folder_sizes
  | Failed e => Raise e
  | Page contents rest =>
      folder_sizes' ← add_objects prefix (default [] contents) folder_sizes;
      add_pages prefix rest folder_sizes'
  end.

Definition get_s3_folder_sizes (aws : s3) (bucket_name prefix : string)
    : outcome (gmap string Z) :=
  _ ← client (client_error aws);
  add_pages prefix (list_objects_v2 aws bucket_name prefix) ∅.

Definition parse_bucket_and_prefix := Validation.parse_bucket_and_prefix.

Definition BUCKET_REGEX := Validation.BUCKET_REGEX.

(** The script body under [if __name__ == '__main__']; [argv] is
    [sys.argv]. The rows of the report are printed by decreasing size;
    the report is recorded here as the mapping it is printed from. *)
Definition main (aws : s3) (argv : list string) : io unit :=
  if decide (length argv < 2)%nat then _ ← print Usage; sys_exit 1
  else
    arg ← lift (index argv 1);
    '(bucket, prefix) ← lift (parse_bucket_and_prefix arg);
    _ ← Validation.validate bucket;
    _ ← print (Analysing bucket prefix);
    sizes ← lift (get_s3_folder_sizes aws bucket prefix);
    if decide (sizes = ∅) then print NoObjectsFound
    else print (FolderReport sizes).

End S3FolderSizes.

(** ** s3_folder_sizes_2level.py *)

Module S3FolderSizes2Level.

(** The loop body's choice of [folder] for one key (lines 31-37). *)
Definition folder_of (prefix : string) (depth : Z) (key : string) : outcome string :=
  let stripped_key :=
    if str_truthy prefix then str_drop (String.length prefix) key else key in
  let parts := split "/" stripped_key in
  if decide (length parts = 1%nat) then Return "(root)"
  else Return (join "/" (slice_to parts depth)).

Fixpoint add_objects (prefix : string) (depth : Z) (contents : list s3_object)
    (folder_sizes : gmap string Z) : outcome (gmap string Z) :=
  match contents with
  | [] => Return folder_sizes
  | obj :: rest =>
      let key := Key obj in
      let size := Size obj in
      folder ← folder_of prefix depth key;
      add_objects prefix depth rest
        (<[folder := default 0 (folder_sizes !! folder) + size]> folder_sizes)
  end.

Fixpoint add_pages (prefix : string) (depth : Z) (ps : pages)
    (folder_sizes : gmap string Z) : outcome (gmap string Z) :=
  match ps with
  | Exhausted => Return folder_sizes
  | Failed e => Raise e
  | Page contents rest =>
      folder_sizes' ← add_objects prefix depth (default [] contents) folder_sizes;
      add_pages prefix depth rest folder_sizes'
  end.

(** [depth] defaults to 2 in the source; callers here always pass it. *)
Definition get_s3_folder_sizes (aws : s3) (bucket_name prefix : string) (depth : Z)
    : outcome (gmap string Z) :=
  _ ← client (client_error aws);
  add_pages prefix depth (list_objects_v2 aws bucket_name prefix) ∅.

Definition parse_bucket_and_prefix := Validation.parse_bucket_and_prefix.

Definition BUCKET_REGEX := Validation.BUCKET_REGEX.

(** The script body from [bucket, prefix = parse_bucket_and_prefix(arg)]
    on, for [arg = sys.argv[1]] and the [depth] read from [--depth=N]
    (2 without the option). Writing the report to a file is left out. *)
Definition main (aws : s3) (arg : string) (depth : Z) : io unit :=
  '(bucket, prefix) ← lift (parse_bucket_and_prefix arg);
  _ ← Validation.validate bucket;
  _ ← print (Analysing bucket prefix);
  sizes ← lift (get_s3_folder_sizes aws bucket prefix depth);
  if decide (sizes = ∅) then print NoObjectsFound
  else print (FolderReport sizes).

End S3FolderSizes2Level.

(** ** [get_bucket_size_cloudwatch], the same text in
    s3_bucket_sizes_fast.py and s3_bucket_sizes_with_folder.py *)

Module Metrics.

(** [max(items, key=key)]: the first item with the largest key;
    [ValueError] on an empty list. *)
Fixpoint max_from {A} (key : A → Z) (best : A) (items : list A) : A :=
  match items with
  | [] => best
  | x :: rest => max_from key (if key best <? key x then x else best) rest
  end.

Definition max_by {A} (key : A → Z) (items : list A) : outcome A :=
  match items with
  | [] => Raise (Exn "max() arg is an empty sequence")
  | x :: rest => Return (max_from key x rest)
  end.

(** [latest = max(response['Datapoints'], key=lambda x: x['Timestamp'])]
    followed by [int(latest['Average'])]. *)
Definition latest_size (datapoints : list datapoint) : outcome Z :=
  latest ← max_by Timestamp datapoints;
  Return (int_of_float (Average latest)).

Definition storage_classes : list string :=
  ["StandardStorage"; "StandardIAStorage"; "ReducedRedundancyStorage";
   "GlacierStorage"; "DeepArchiveStorage"; "IntelligentTieringFAStorage";
   "IntelligentTieringIAStorage"; "IntelligentTieringAAStorage";
   "IntelligentTieringAIAStorage"; "IntelligentTieringDAAStorage"].

(** [for storage_class in storage_classes: ...] *)
Fixpoint sum_storage_classes (cw : cloudwatch) (bucket_name : string)
    (classes : list string) (total_size : Z) : outcome Z :=
  match classes with
  | [] => Return total_size
  | storage_class :: rest =>
      datapoints ← call (get_metric_statistics cw Fallback bucket_name storage_class);
      if list_truthy datapoints
      then (size ← latest_size datapoints;
            sum_storage_classes cw bucket_name rest (total_size + size))
      else sum_storage_classes cw bucket_name rest total_size
  end.

(** The body of the [try]. *)
Definition query_size (cw : cloudwatch) (bucket_name : string) : outcome (string * Z) :=
  _ ← client (cw_client_error cw);
  datapoints ← call (get_metric_statistics cw Primary bucket_name "StandardStorage");
  if list_truthy datapoints
  then (size ← latest_size datapoints; Return (bucket_name, size))
  else (total_size ← sum_storage_classes cw bucket_name storage_classes 0;
        Return (bucket_name, total_size)).

Definition get_bucket_size_cloudwatch (cw : cloudwatch) (bucket_name : string)
    : io (string * Z) :=
  try_catch (lift (query_size cw bucket_name))
    (λ e, _ ← print (MetricsWarning bucket_name e); mret (bucket_name, 0)).

End Metrics.

(** ** [bucket_sizes.sort(key=lambda x: x[1], reverse=True)] *)

Module ListSort.

(** [list.sort] is stable, also with [reverse=True]: among entries of
    equal size the earlier one stays first. *)
Fixpoint insert_desc (x : string * Z) (sorted : list (string * Z))
    : list (string * Z) :=
  match sorted with
  | [] => [x]
  | y :: rest => if x.2 <? y.2 then y :: insert_desc x rest else x :: y :: rest
  end.

Definition sort_by_size_desc (l : list (string * Z)) : list (string * Z) :=
  foldr insert_desc [] l.

End ListSort.

Import ListSort.

(** ** s3_bucket_sizes_fast.py *)

Module S3BucketSizesFast.

(** [re.match(r'.*db-.*', bucket_name)] *)
Definition DB_PATTERN : Re.pattern :=
  [Re.Rep Re.dot 0 None false] ++ Re.lits "db-" ++ [Re.Rep Re.dot 0 None false].

(** The loop body's test: [true] when the bucket is skipped. *)
Definition excluded (name : string) : bool :=
  let bucket_name := lower name in
  if contains "lifecycle" bucket_name then true
  else if contains "logs" bucket_name then true
  else match Re.re_match DB_PATTERN bucket_name with
       | Some _ => true
       | None => false
       end.

Fixpoint filter_buckets (buckets filtered_buckets : list string) : list string :=
  match buckets with
  | [] => filtered_buckets
  | name :: rest =>
      if excluded name then filter_buckets rest filtered_buckets
      else filter_buckets rest (filtered_buckets ++ [name])
  end.

Definition get_all_bucket_names (aws : s3) : io (list string) :=
  try_catch
    (lift (_ ← client (client_error aws);
           buckets ← call (list_buckets aws);
           Return (filter_buckets buckets [])))
    (λ e, _ ← print (ErrorListingBuckets e); mret []).

Definition get_bucket_size_cloudwatch := Metrics.get_bucket_size_cloudwatch.

Definition units : list string := ["B"; "KB"; "MB"; "GB"; "TB"; "PB"].

Definition format_size : Z → outcome string := Format.format_size_units units.

(** [args] without the lock: (bucket_name, bucket_index, total_buckets). *)
Definition process_bucket_with_progress (cw : cloudwatch) (args : string * Z * Z)
    : io (string * Z) :=
  let '(bucket_name, bucket_index, total_buckets) := args in
  '(name, size) ← get_bucket_size_cloudwatch cw bucket_name;
  shown ← lift (format_size size);
  _ ← print (WorkerProgress bucket_index total_buckets bucket_name shown);
  mret (name, size).

Definition args_list (bucket_names : list string) : list (string * Z * Z) :=
  imap (λ i bucket_name, (bucket_name, Z.of_nat i + 1, Z.of_nat (length bucket_names)))
    bucket_names.

Definition max_workers (bucket_names : list string) : Z :=
  Z.min 20 (Z.of_nat (length bucket_names)).

(** The body of the collecting loop for one future: the entry appended to
    [bucket_sizes], with [bucket_name = future_to_bucket[future]]. *)
Definition future_result (cw : cloudwatch) (args : string * Z * Z) : io (string * Z) :=
  let bucket_name := args.1.1 in
  try_catch (process_bucket_with_progress cw args)
    (λ e, _ ← print (ErrorProcessing bucket_name e); mret (bucket_name, 0)).

(** [for future in as_completed(future_to_bucket): ...]. A future is
    named by the position of its task in [args_list]; [completed] is the
    order in which the pool delivers them. The lines a worker prints are
    recorded where its result is collected. *)
Fixpoint collect (cw : cloudwatch) (tasks : list (string * Z * Z))
    (completed : list nat) (bucket_sizes : list (string * Z))
    : io (list (string * Z)) :=
  match completed with
  | [] => mret bucket_sizes
  | future :: rest =>
      match tasks !! future with
      | None => collect cw tasks rest bucket_sizes
      | Some args =>
          entry ← future_result cw args;
          collect cw tasks rest (bucket_sizes ++ [entry])
      end
  end.

(** [with ThreadPoolExecutor(max_workers=max_workers) as executor: ...]:
    the constructor raises [ValueError] unless [max_workers] is positive. *)
Definition fan_out (cw : cloudwatch) (bucket_names : list string)
    (completed : list nat) : io (list (string * Z)) :=
  if max_workers bucket_names <=? 0
  then lift (Raise (Exn "max_workers must be greater than 0"))
  else collect cw (args_list bucket_names) completed [].

(** [for bucket_name, size in bucket_sizes: total_size += size; print(...)] *)
Fixpoint summary (bucket_sizes : list (string * Z)) (total_size : Z) : io Z :=
  match bucket_sizes with
  | [] => mret total_size
  | (bucket_name, size) :: rest =>
      let total_size := total_size + size in
      shown ← lift (format_size size);
      _ ← print (SummaryRow bucket_name shown);
      summary rest total_size
  end.

(** The sorted list that [main] displays. *)
Definition sorted_bucket_sizes (cw : cloudwatch) (bucket_names : list string)
    (completed : list nat) : io (list (string * Z)) :=
  bucket_sizes ← fan_out cw bucket_names completed;
  mret (sort_by_size_desc bucket_sizes).

(** [main]; [sts_error] is what [get_caller_identity] raises, if
    anything. *)
Definition main (sts_error : option exn) (aws : s3) (cw : cloudwatch)
    (completed : list nat) : io unit :=
  _ ← match sts_error with
      | None => print CredentialsVerified
      | Some e => _ ← print (CredentialsError e); sys_exit 1
      end;
  bucket_names ← get_all_bucket_names aws;
  if negb (list_truthy bucket_names) then print NoBucketsFound
  else
    _ ← print (BucketsFound (Z.of_nat (length bucket_names)));
    bucket_sizes ← sorted_bucket_sizes cw bucket_names completed;
    total_size ← summary bucket_sizes 0;
    shown ← lift (format_size total_size);
    print (SummaryTotal shown).

End S3BucketSizesFast.

(** ** s3_bucket_sizes_cli.py *)

Module S3BucketSizesCli.

Definition get_all_bucket_names (aws : s3) : io (list string) :=
  try_catch
    (lift (_ ← client (client_error aws);
           buckets ← call (list_buckets aws);
           Return buckets))
    (λ e, _ ← print (ErrorListingBuckets e); mret []).

(** [cmd] of [get_bucket_size_cli] *)
Definition cmd (bucket_name : string) : list string :=
  ["aws"; "s3"; "ls"; "s3://" +:+ bucket_name +:+ "/"; "--recursive"; "--summarize"].

(** [r'Total Size:\s+(\d+)'] *)
Definition TOTAL_SIZE : Re.pattern :=
  Re.lits "Total Size:" ++ [Re.Rep is_space 1 None false; Re.Rep is_digit 1 None true].

Definition get_bucket_size_cli (run : subprocess) (bucket_name : string)
    : io (string * Z) :=
  match run (cmd bucket_name) (Some 5000) with
  | Completed returncode stdout stderr =>
      if negb (returncode =? 0)
      then _ ← print (CliAccessError bucket_name (strip stderr));
           mret (bucket_name, 0)
      else
        let output := stdout in
        match Re.re_search TOTAL_SIZE output with
        | Some size_match =>
            group1 ← lift (index size_match 0);
            mret (bucket_name, int_of_digits group1)
        | None => mret (bucket_name, 0)
        end
  | TimeoutExpired => _ ← print (CliTimeout bucket_name); mret (bucket_name, 0)
  | FileNotFoundError => _ ← print CliNotInstalled; sys_exit 1
  | OtherError e => _ ← print (CliProcessingError bucket_name e); mret (bucket_name, 0)
  end.

Definition check_aws_cli (run : subprocess) : io bool :=
  match run ["aws"; "--version"] None with
  | Completed returncode stdout stderr =>
      if negb (returncode =? 0) then _ ← print CliUnavailable; mret false
      else _ ← print (CliVersion (strip stdout)); mret true
  | FileNotFoundError => _ ← print CliNotInstalled; mret false
  | TimeoutExpired => lift (Raise (Exn "TimeoutExpired"))
  | OtherError e => lift (Raise e)
  end.

Definition units : list string := ["B"; "KB"; "MB"; "GB"; "TB"].

Definition format_size : Z → outcome string := Format.format_size_units units.

(** [for i, bucket_name in enumerate(bucket_names, 1): ...] *)
Fixpoint measure_all (run : subprocess) (total : Z) (i : Z)
    (bucket_names : list string) (bucket_sizes : list (string * Z))
    : io (list (string * Z)) :=
  match bucket_names with
  | [] => mret bucket_sizes
  | bucket_name :: rest =>
      '(name, size) ← get_bucket_size_cli run bucket_name;
      shown ← lift (format_size size);
      _ ← print (CliProgress i total bucket_name shown);
      measure_all run total (i + 1) rest (bucket_sizes ++ [(name, size)])
  end.

Fixpoint summary (bucket_sizes : list (string * Z)) (total_size : Z) : io Z :=
  match bucket_sizes with
  | [] => mret total_size
  | (bucket_name, size) :: rest =>
      let total_size := total_size + size in
      shown ← lift (format_size size);
      _ ← print (SummaryRow bucket_name shown);
      summary rest total_size
  end.

(** The sorted list that [main] displays. *)
Definition sorted_bucket_sizes (run : subprocess) (bucket_names : list string)
    : io (list (string * Z)) :=
  bucket_sizes ←
    measure_all run (Z.of_nat (length bucket_names)) 1 bucket_names [];
  mret (sort_by_size_desc bucket_sizes).

Definition main (run : subprocess) (aws : s3) : io unit :=
  ok ← check_aws_cli run;
  if negb ok then sys_exit 1
  else
    bucket_names ← get_all_bucket_names aws;
    if negb (list_truthy bucket_names) then print NoBucketsFound
    else
      _ ← print (BucketsFound (Z.of_nat (length bucket_names)));
      bucket_sizes ← sorted_bucket_sizes run bucket_names;
      total_size ← summary bucket_sizes 0;
      shown ← lift (format_size total_size);
      print (SummaryTotal shown).

End S3BucketSizesCli.

(** ** s3_bucket_sizes_with_folder.py *)

Module S3BucketSizesWithFolder.

(** The exclusions are commented out in this script. *)
Definition get_all_bucket_names (aws : s3) : io (list string) :=
  try_catch
    (lift (_ ← client (client_error aws);
           buckets ← call (list_buckets aws);
           Return buckets))
    (λ e, _ ← print (ErrorListingBuckets e); mret []).

Definition get_bucket_size_cloudwatch := Metrics.get_bucket_size_cloudwatch.

Definition units : list string := ["B"; "KB"; "MB"; "GB"; "TB"; "PB"].

Definition format_size : Z → outcome string := Format.format_size_units units.

(** The [{'size': ..., 'count': ...}] entry of a subfolder. *)
Record entry := { size : Z; count : Z }.

(** The three variables the listing loop updates. *)
Record tally := {
  total_size : Z;
  object_count : Z;
  subfolder_sizes : gmap string entry;
}.

(** The key under which an object is counted (lines 86-94). *)
Definition subfolder_key_of (folder_path obj_key : string) : outcome string :=
  let relative_path := str_drop (String.length folder_path) obj_key in
  if contains_char "/" relative_path
  then (subfolder ← index (split "/" relative_path) 0;
        Return (folder_path +:+ subfolder +:+ "/"))
  else Return (folder_path +:+ "(archivos directos)").

(** The body of [for obj in page['Contents']]. *)
Definition add_object (folder_path : string) (obj : s3_object) (t : tally) : io tally :=
  let obj_key := Key obj in
  let obj_size := Size obj in
  let total_size := total_size t + obj_size in
  let object_count := object_count t + 1 in
  subfolder_key ← lift (subfolder_key_of folder_path obj_key);
  let sizes0 :=
    if decide (subfolder_sizes t !! subfolder_key = None)
    then <[subfolder_key := {| size := 0; count := 0 |}]> (subfolder_sizes t)
    else subfolder_sizes t in
  let sizes1 :=
    alter (λ d, {| size := size d + obj_size; count := count d |}) subfolder_key sizes0 in
  let sizes2 :=
    alter (λ d, {| size := size d; count := count d + 1 |}) subfolder_key sizes1 in
  _ ← (if object_count mod 1000 =? 0
       then shown ← lift (format_size total_size);
            print (ObjectsProgress object_count shown)
       else mret ());
  mret {| total_size := total_size; object_count := object_count;
          subfolder_sizes := sizes2 |}.

Fixpoint add_objects (folder_path : string) (contents : list s3_object) (t : tally)
    : io tally :=
  match contents with
  | [] => mret t
  | obj :: rest => t' ← add_object folder_path obj t; add_objects folder_path rest t'
  end.

(** [for page in paginator.paginate(...): if 'Contents' in page: ...] *)
Fixpoint add_pages (folder_path : string) (ps : pages) (t : tally) : io tally :=
  match ps with
  | Exhausted => mret t
  | Failed e => lift (Raise e)
  | Page None rest => add_pages folder_path rest t
  | Page (Some contents) rest =>
      t' ← add_objects folder_path contents t; add_pages folder_path rest t'
  end.

Definition get_folder_size_s3 (aws : s3) (bucket_name folder_path : string)
    : io (string * Z * Z * gmap string entry) :=
  let folder_path' :=
    if str_truthy folder_path && negb (endswith_char "/" folder_path)
    then folder_path +:+ "/" else folder_path in
  try_catch
    (_ ← lift (client (client_error aws));
     _ ← print (AnalysingObjects bucket_name folder_path');
     t ← add_pages folder_path' (list_objects_v2 aws bucket_name folder_path')
           {| total_size := 0; object_count := 0; subfolder_sizes := ∅ |};
     mret (folder_path', total_size t, object_count t, subfolder_sizes t))
    (λ e, _ ← print (FolderError folder_path' bucket_name e);
          mret (folder_path', 0, 0, ∅)).

(** [parse_folder_path] *)
Definition parse_folder_path (folder_arg : string) : outcome (string * string) :=
  let folder_arg :=
    if startswith "s3://" folder_arg then str_drop 5 folder_arg else folder_arg in
  let parts := split1 "/" folder_arg in
  if decide (length parts = 1%nat)
  then (b ← index parts 0; Return (b, ""))
  else (b ← index parts 0; p ← index parts 1; Return (b, p)).

End S3BucketSizesWithFolder.

(** ** Reference notions the properties are stated with *)

Module Spec.

(** The part of a relative key before its first ['/']. *)
Fixpoint first_segment (s : string) : string :=
  match s with
  | EmptyString => EmptyString
  | String c s' => if Ascii.eqb c "/" then EmptyString else String c (first_segment s')
  end.

(** The grouping key of the single-level scripts, said directly. *)
Definition single_level_key (prefix key : string) : string :=
  let rel := if str_truthy prefix then str_drop (String.length prefix) key else key in
  if contains_char "/" rel then first_segment rel else "(root)".

(** All objects a listing delivers before it ends or fails. *)
Fixpoint objects_of (ps : pages) : list s3_object :=
  match ps with
  | Exhausted | Failed _ => []
  | Page contents rest => default [] contents ++ objects_of rest
  end.

(** The exception that ends a listing, if one does. *)
Fixpoint failure_of (ps : pages) : option exn :=
  match ps with
  | Exhausted => None
  | Failed e => Some e
  | Page _ rest => failure_of rest
  end.

(** The bytes of a list of objects. *)
Definition total_bytes (objs : list s3_object) : Z :=
  foldr (λ obj acc, Size obj + acc) 0 objs.


(** [sum(d['size'] for d in subfolder_sizes.values())] and the same for
    ['count']. *)
Definition sum_sizes (m : gmap string S3BucketSizesWithFolder.entry) : Z :=
  map_fold (λ _ d acc, S3BucketSizesWithFolder.size d + acc) 0 m.

Definition sum_counts (m : gmap string S3BucketSizesWithFolder.entry) : Z :=
  map_fold (λ _ d acc, S3BucketSizesWithFolder.count d + acc) 0 m.

(** The sums over the subfolder entries agree with the running totals. *)
Definition balanced (t : S3BucketSizesWithFolder.tally) : Prop :=
  sum_sizes (S3BucketSizesWithFolder.subfolder_sizes t)
  = S3BucketSizesWithFolder.total_size t
  ∧ sum_counts (S3BucketSizesWithFolder.subfolder_sizes t)
    = S3BucketSizesWithFolder.object_count t.






(** The entry the fast script collects for one task. *)
Definition entry_of (cw : cloudwatch) (args : string * Z * Z) : string * Z :=
  match result (S3BucketSizesFast.future_result cw args) with
  | Return entry => entry
  | _ => (args.1.1, 0)
  end.

(** Sorted by size, largest first. *)
Definition by_size_desc (x y : string * Z) : Prop := y.2 ≤ x.2.

(** A CloudWatch that fails on the bucket "bad" and has data elsewhere. *)
Definition example_cloudwatch_partial : cloudwatch :=
  {| cw_client_error := None;
     get_metric_statistics := λ _ bucket_name _,
       if decide (bucket_name = "bad") then Err (Exn "throttled")
       else Ok [ {| Timestamp := 5; Average := 2000 # 1 |} ] |}.

(** A CloudWatch whose default-tier query finds three data points. *)
Definition example_cloudwatch_primary : cloudwatch :=
  {| cw_client_error := None;
     get_metric_statistics := λ _ _ _,
       Ok [ {| Timestamp := 100; Average := 4096 # 1 |};
            {| Timestamp := 86500; Average := 12345 # 2 |};
            {| Timestamp := 50; Average := 7 # 1 |} ] |}.


(** Listing the buckets fails with [e]: creating the client raises, or
    the request does. *)
Definition listing_fails (aws : s3) (e : exn) : Prop :=
  client_error aws = Some e ∨ (client_error aws = None ∧ list_buckets aws = Err e).

(** An account without buckets, and one whose credentials are refused. *)
Definition example_s3_empty : s3 :=
  {| client_error := None; list_buckets := Ok [];
     list_objects_v2 := λ _ _, Exhausted |}.

Definition example_s3_denied : s3 :=
  {| client_error := None; list_buckets := Err (Exn "InvalidAccessKeyId");
     list_objects_v2 := λ _ _, Failed (Exn "InvalidAccessKeyId") |}.


(** What the AWS CLI prints for the folder-grouping example, and a
    [subprocess.run] that answers with it. *)
Definition example_cli_output : string :=
  "2024-01-01 10:00:00         10 base/a/x.txt" +:+ String "010" (
  "2024-01-01 10:00:00          5 base/a/y.txt" +:+ String "010" (
  String "010" (
  "Total Objects: 4" +:+ String "010" (
  "   Total Size: 20" +:+ String "010" "")))).

Definition example_run (answer : run_result) : subprocess := λ _ _, answer.

(** Every character of [s] is in the class [cls]. *)
Fixpoint all_chars (cls : ascii → bool) (s : string) : Prop :=
  match s with
  | EmptyString => True
  | String c s' => cls c = true ∧ all_chars cls s'
  end.

(** The characters of the class [[a-z0-9.\-_]]. *)
Definition allowed_chars : list ascii :=
  String.list_ascii_of_string "abcdefghijklmnopqrstuvwxyz0123456789.-_".

(** What [^[a-z0-9.\-_]{3,63}$] accepts under [re.match]: 3 to 63
    characters of the class, up to the end of the string or up to a single
    final newline (without [re.MULTILINE], [$] also matches just before a
    newline that ends the string). *)
Definition valid_bucket_name (bucket : string) : Prop :=
  ∃ body,
    (bucket = body ∨ bucket = body +:+ String "010" EmptyString)
    ∧ (3 ≤ String.length body ≤ 63)%nat
    ∧ all_chars (λ c, bool_decide (c ∈ allowed_chars)) body.

(** The listing of the folder-grouping example. *)
Definition example_listing : pages :=
  Page (Some [ {| Key := "base/a/x.txt"; Size := 10 |};
               {| Key := "base/a/y.txt"; Size := 5 |};
               {| Key := "base/b.txt"; Size := 3 |};
               {| Key := "base/c/z.txt"; Size := 2 |} ]) Exhausted.

(** The mapping the example is said to yield, and the mappings the two
    scripts yield on it. *)
Definition example_mapping_direct_files : gmap string Z :=
  {[ "a" := 15; "(direct files)" := 3; "c" := 2 ]}.

Definition example_mapping_root : gmap string Z :=
  {[ "a" := 15; "(root)" := 3; "c" := 2 ]}.

Definition example_mapping_subfolders : gmap string S3BucketSizesWithFolder.entry :=
  {[ "base/a/" := {| S3BucketSizesWithFolder.size := 15;
                     S3BucketSizesWithFolder.count := 2 |};
     "base/(archivos directos)" := {| S3BucketSizesWithFolder.size := 3;
                                      S3BucketSizesWithFolder.count := 1 |};
     "base/c/" := {| S3BucketSizesWithFolder.size := 2;
                     S3BucketSizesWithFolder.count := 1 |} ]}.

Definition example_s3 : s3 :=
  {| client_error := None; list_buckets := Ok ["bucket"];
     list_objects_v2 := λ _ _, example_listing |}.

End Spec.

(** ** Further reference notions *)

Module Grouping.

(** The key relative to the prefix, as both folder scripts compute it. *)
Definition relative (prefix key : string) : string :=
  if str_truthy prefix then str_drop (String.length prefix) key else key.

(** The grouping key of s3_folder_sizes_2level.py, said directly: the
    first [depth] segments of the relative key, or "(root)" when it has no
    separator. *)
Definition depth_key (prefix : string) (depth : Z) (key : string) : string :=
  let rel := relative prefix key in
  if contains_char "/" rel then join "/" (slice_to (split "/" rel) depth)
  else "(root)".

(** The grouping key of [get_folder_size_s3]. *)
Definition subfolder_key (folder_path obj_key : string) : string :=
  let rel := str_drop (String.length folder_path) obj_key in
  if contains_char "/" rel then folder_path +:+ Spec.first_segment rel +:+ "/"
  else folder_path +:+ "(archivos directos)".

(** The objects of a listing that fall under the grouping key [k]. *)
Definition keyed (key_of : string → string) (k : string) (objs : list s3_object)
    : list s3_object :=
  filter (λ obj, key_of (Key obj) = k) objs.

(** The folder path as [get_folder_size_s3] normalises it. *)
Definition normalised (folder_path : string) : string :=
  if str_truthy folder_path && negb (endswith_char "/" folder_path)
  then folder_path +:+ "/" else folder_path.

(** The entry of a subfolder after one more object of [obj_size] bytes. *)
Definition bump (obj_size : Z) (old : option S3BucketSizesWithFolder.entry)
    : S3BucketSizesWithFolder.entry :=
  let d := default {| S3BucketSizesWithFolder.size := 0;
                      S3BucketSizesWithFolder.count := 0 |} old in
  {| S3BucketSizesWithFolder.size := S3BucketSizesWithFolder.size d + obj_size;
     S3BucketSizesWithFolder.count := S3BucketSizesWithFolder.count d + 1 |}.

End Grouping.

Module Exclusion.

(** A bucket name the fast script keeps: its lower-case form holds none of
    "lifecycle", "logs" and "db-". *)
Definition kept (name : string) : Prop :=
  contains "lifecycle" (lower name) = false
  ∧ contains "logs" (lower name) = false
  ∧ contains "db-" (lower name) = false.

#[global] Instance kept_dec name : Decision (kept name).
Proof. unfold kept. apply _. Defined.

End Exclusion.

Module Report.




(** A [subprocess.run] for a machine without the AWS CLI. *)
Definition no_cli : subprocess := λ _ _, FileNotFoundError.

(** A [subprocess.run] for a working CLI: a version banner, and a summary
    of 4096 bytes for every bucket but "empty", whose listing has none. *)
Definition working_cli : subprocess := λ cmd _,
  if decide (cmd = ["aws"; "--version"]) then Completed 0 "aws-cli/2.15.0" ""
  else if decide (cmd = S3BucketSizesCli.cmd "empty") then Completed 0 "" ""
  else Completed 0 ("Total Objects: 3" +:+ String "010" "   Total Size: 4096") "".

(** An account with four buckets, one of which the fast script skips. *)
Definition three_buckets : s3 :=
  {| client_error := None; list_buckets := Ok ["a"; "my-logs"; "bad"; "c"];
     list_objects_v2 := λ _ _, Exhausted |}.

End Report.

(** ** The subfolder breakdown printed by [main] of
    s3_bucket_sizes_with_folder.py *)

Module Breakdown.

(** The name shown for a subfolder key (lines 328-334). [folder_path] is
    the path [parse_folder_path] returned, as [main] keeps it: the path
    [get_folder_size_s3] returns, with its final "/", is bound to
    [folder_path_result] and not used. *)
Definition display_name (folder_path subfolder_path : string) : string :=
  let display_name := subfolder_path in
  let display_name :=
    if startswith folder_path display_name
    then str_drop (String.length folder_path) display_name else display_name in
  let display_name :=
    if endswith_char "/" display_name
    then str_take (String.length display_name - 1) display_name else display_name in
  if negb (str_truthy display_name) then "(archivos directos)" else display_name.

End Breakdown.

(** * Properties *)

Section split_facts.

Lemma split_nonempty sep s : ∃ p ps, split sep s = p :: ps.
Proof.
  induction s as [|c s IH]; simpl; [eauto|].
  destruct (Ascii.eqb c sep); [eauto|].
  destruct IH as (p & ps & ->); eauto.
Qed.

Lemma split_single_iff sep s :
  length (split sep s) = 1%nat ↔ contains_char sep s = false.
Proof.
  induction s as [|c s IH]; simpl; [done|].
  destruct (Ascii.eqb c sep) eqn:E.
  - destruct (split_nonempty sep s) as (p & ps & ->). simpl. split; [lia|done].
  - destruct (split_nonempty sep s) as (p & ps & Hs).
    rewrite Hs in IH |- *. simpl in *. done.
Qed.

End split_facts.

Section folder_keys.

Lemma split_first_segment s : ∃ ps, split "/" s = Spec.first_segment s :: ps.
Proof.
  induction s as [|c s [ps IH]]; simpl; [eauto|].
  destruct (Ascii.eqb c "/"); [eauto|]. rewrite IH. eauto.
Qed.

Lemma single_folder_of prefix key :
  S3FolderSizes.folder_of prefix key = Return (Spec.single_level_key prefix key).
Proof.
  unfold S3FolderSizes.folder_of, Spec.single_level_key.
  set (rel := if str_truthy prefix then _ else _).
  destruct (contains_char "/" rel); [|done].
  destruct (split_first_segment rel) as [ps ->]. done.
Qed.

Lemma depth_one_folder_of prefix key :
  S3FolderSizes2Level.folder_of prefix 1 key = Return (Spec.single_level_key prefix key).
Proof.
  unfold S3FolderSizes2Level.folder_of, Spec.single_level_key.
  set (rel := if str_truthy prefix then _ else _).
  pose proof (split_single_iff "/" rel) as Hone.
  destruct (split_first_segment rel) as [ps Hs]. rewrite Hs in Hone |- *.
  case_decide as Hlen.
  - apply Hone in Hlen. by rewrite Hlen.
  - destruct (contains_char "/" rel); [|by destruct Hlen; apply Hone].
    done.
Qed.

Lemma add_objects_depth_one prefix contents m :
  S3FolderSizes.add_objects prefix contents m
  = S3FolderSizes2Level.add_objects prefix 1 contents m.
Proof.
  revert m. induction contents as [|obj rest IH]; intros m; simpl; [done|].
  rewrite single_folder_of, depth_one_folder_of. simpl. apply IH.
Qed.

Lemma add_pages_depth_one prefix ps m :
  S3FolderSizes.add_pages prefix ps m = S3FolderSizes2Level.add_pages prefix 1 ps m.
Proof.
  revert m. induction ps as [|contents rest IH|e]; intros m; simpl; [done| |done].
  rewrite add_objects_depth_one.
  destruct (S3FolderSizes2Level.add_objects _ _ _ _); simpl; [apply IH|done..].
Qed.

End folder_keys.

(** C10: on every listing and prefix, the single-level grouping of
    s3_folder_sizes.py returns exactly what the depth-parameterised grouping
    of s3_folder_sizes_2level.py returns at depth 1; both choose, for every
    key, the first path segment after the prefix, or "(root)" when no
    separator follows. *)
Theorem single_level_is_depth_one (aws : s3) (bucket_name prefix : string) :
  S3FolderSizes.get_s3_folder_sizes aws bucket_name prefix
  = S3FolderSizes2Level.get_s3_folder_sizes aws bucket_name prefix 1
  ∧ ∀ key,
      S3FolderSizes.folder_of prefix key = Return (Spec.single_level_key prefix key)
      ∧ S3FolderSizes2Level.folder_of prefix 1 key
        = Return (Spec.single_level_key prefix key).
Proof.
  split.
  - unfold S3FolderSizes.get_s3_folder_sizes, S3FolderSizes2Level.get_s3_folder_sizes.
    destruct (client (client_error aws)); simpl; [|done..].
    apply add_pages_depth_one.
  - intros key. split; [apply single_folder_of | apply depth_one_folder_of].
Qed.

Section dict_sums.

Context {A : Type} (f : A → Z).

Local Abbreviation total := (map_fold (M := gmap string A) (λ _ d acc, f d + acc) 0).

Lemma total_empty : total ∅ = 0.
Proof. apply map_fold_empty. Qed.

Lemma total_insert_fresh k v (m : gmap string A) :
  m !! k = None → total (<[k:=v]> m) = f v + total m.
Proof.
  intros Hk. rewrite map_fold_insert_L; [done| |done].
  intros. lia.
Qed.

Lemma total_delete k x (m : gmap string A) :
  m !! k = Some x → total m = f x + total (delete k m).
Proof.
  intros Hk. rewrite (map_fold_delete_L _ _ k x m); [done| |done].
  intros. lia.
Qed.

Lemma total_insert_present k v x (m : gmap string A) :
  m !! k = Some x → total (<[k:=v]> m) = f v + total m - f x.
Proof.
  intros Hk. rewrite (total_delete k x m Hk), <-(insert_delete_eq m k v).
  rewrite total_insert_fresh by apply lookup_delete_eq. lia.
Qed.

Lemma alter_present (g : A → A) k x (m : gmap string A) :
  m !! k = Some x → alter g k m = <[k := g x]> m.
Proof.
  intros Hk. apply map_eq. intros j.
  destruct (decide (k = j)) as [->|Hne].
  - by rewrite lookup_alter_eq, lookup_insert_eq, Hk.
  - by rewrite lookup_alter_ne, lookup_insert_ne.
Qed.

End dict_sums.

Section io_facts.

Context {A B : Type}.

Lemma io_bind_result (m : io A) (k : A → io B) (b : B) :
  result (m ≫= k) = Return b ↔ ∃ a, result m = Return a ∧ result (k a) = Return b.
Proof.
  unfold mbind, io_bind. destruct (result m) as [a|e|c]; simpl.
  - split; [eauto|]. by intros (a' & [= <-] & ?).
  - split; [done|]. by intros (? & ? & ?).
  - split; [done|]. by intros (? & ? & ?).
Qed.



Lemma io_eta {C} (m : io C) : IO (result m) (printed m) = m.
Proof. by destruct m. Qed.

Lemma lift_return_bind (a : A) (k : A → io B) : lift (Return a) ≫= k = k a.
Proof. unfold mbind, io_bind. simpl. apply io_eta. Qed.

Lemma io_bind_exit_first (m : io A) (k : A → io B) (c : Z) :
  result m = Exit c → m ≫= k = IO (Exit c) (printed m).
Proof. unfold mbind, io_bind. by intros ->. Qed.

End io_facts.

Section partition.

Import S3BucketSizesWithFolder.

Lemma add_object_balanced folder_path obj t t' :
  Spec.balanced t →
  result (add_object folder_path obj t) = Return t' →
  Spec.balanced t'
  ∧ total_size t' = total_size t + Size obj
  ∧ object_count t' = object_count t + 1.
Proof.
  intros [Hs Hc]. unfold add_object.
  destruct (subfolder_key_of folder_path (Key obj)) as [k|e|c]; simpl; [|done..].
  set (m0 := if decide (subfolder_sizes t !! k = None) then _ else _).
  set (m2 := alter _ k (alter _ k m0)).
  intros Hret.
  assert (t' = {| total_size := total_size t + Size obj;
                  object_count := object_count t + 1;
                  subfolder_sizes := m2 |}) as ->.
  { destruct (_ =? 0); simpl in Hret.
    - destruct (format_size _); simpl in Hret; congruence.
    - congruence. }
  clear Hret. simpl. split; [|done].
  assert (∃ d, m0 !! k = Some d
               ∧ Spec.sum_sizes m0 = Spec.sum_sizes (subfolder_sizes t)
               ∧ Spec.sum_counts m0 = Spec.sum_counts (subfolder_sizes t))
    as (d & Hd & Hs0 & Hc0).
  { subst m0. case_decide as Hk.
    - eexists. split; [apply lookup_insert_eq|].
      unfold Spec.sum_sizes, Spec.sum_counts.
      rewrite !total_insert_fresh by done. simpl. lia.
    - destruct (subfolder_sizes t !! k) as [d|]; [eauto|done]. }
  subst m2. rewrite (alter_present _ k d m0 Hd).
  rewrite (alter_present _ k _ _ (lookup_insert_eq _ _ _)).
  rewrite insert_insert_eq. unfold Spec.balanced, Spec.sum_sizes, Spec.sum_counts in *.
  simpl. rewrite !(total_insert_present _ k _ d) by done. simpl. lia.
Qed.

Lemma format_size_units_no_exit units n c :
  Format.format_size_units units n ≠ Exit c.
Proof.
  unfold Format.format_size_units. destruct (n =? 0); [done|].
  unfold float_of_int. destruct (_ <=? _); simpl; [done|].
  destruct (Format.scale _ _ _ _) as [q k]. unfold index.
  destruct (units !! k); simpl; [|done]. by destruct (k =? 0)%nat.
Qed.


Lemma add_objects_balanced folder_path contents t t' :
  Spec.balanced t →
  result (add_objects folder_path contents t) = Return t' →
  Spec.balanced t'
  ∧ total_size t' = total_size t + Spec.total_bytes contents
  ∧ object_count t' = object_count t + Z.of_nat (length contents).
Proof.
  revert t. induction contents as [|obj rest IH]; intros t Hb; simpl.
  - intros [= <-]. split; [done|]. unfold Spec.total_bytes. simpl. lia.
  - rewrite io_bind_result. intros (t1 & H1 & H2).
    destruct (add_object_balanced _ _ _ _ Hb H1) as (Hb1 & Hs1 & Hc1).
    destruct (IH _ Hb1 H2) as (Hb' & Hs' & Hc'). split; [done|].
    unfold Spec.total_bytes in *. simpl. lia.
Qed.


Lemma add_pages_balanced folder_path ps t t' :
  Spec.balanced t →
  result (add_pages folder_path ps t) = Return t' →
  Spec.balanced t'
  ∧ total_size t' = total_size t + Spec.total_bytes (Spec.objects_of ps)
  ∧ object_count t' = object_count t + Z.of_nat (length (Spec.objects_of ps))
  ∧ Spec.failure_of ps = None.
Proof.
  revert t. induction ps as [|contents rest IH|e]; intros t Hb; simpl; [| |done].
  - intros [= <-]. unfold Spec.total_bytes. simpl. repeat split; try apply Hb; lia.
  - destruct contents as [contents|]; simpl.
    + rewrite io_bind_result. intros (t1 & H1 & H2).
      destruct (add_objects_balanced _ _ _ _ Hb H1) as (Hb1 & Hs1 & Hc1).
      destruct (IH _ Hb1 H2) as (Hb' & Hs' & Hc' & Hf). split; [done|].
      unfold Spec.total_bytes in *. rewrite foldr_app, length_app.
      fold (Spec.total_bytes (Spec.objects_of rest)).
      assert (∀ l z, foldr (λ obj acc, Size obj + acc) z l
                     = Spec.total_bytes l + z) as Hshift.
      { unfold Spec.total_bytes. induction l; intros; simpl; [lia|].
        rewrite IHl. lia. }
      rewrite Hshift. unfold Spec.total_bytes in *. repeat split; [lia|lia|done].
    + apply IH, Hb.
Qed.


End partition.

Section single_level_sums.

Import S3FolderSizes.

Lemma total_bytes_app l1 l2 :
  Spec.total_bytes (l1 ++ l2) = Spec.total_bytes l1 + Spec.total_bytes l2.
Proof.
  unfold Spec.total_bytes. induction l1 as [|o l1 IH]; simpl; [lia|].
  rewrite IH. lia.
Qed.




End single_level_sums.


(** C2, as amended: on the listing with prefix "base/" and the objects
    "base/a/x.txt" (10), "base/a/y.txt" (5), "base/b.txt" (3) and
    "base/c/z.txt" (2), [get_s3_folder_sizes] yields the mapping
    {"a": 15, "(root)": 3, "c": 2}, and [get_folder_size_s3] yields total
    size 20, object count 4 and the mapping {"base/a/": (15, 2),
    "base/(archivos directos)": (3, 1), "base/c/": (2, 1)}. *)
Theorem example_grouping (aws : s3) (bucket_name : string) :
  client_error aws = None →
  list_objects_v2 aws bucket_name "base/" = Spec.example_listing →
  S3FolderSizes.get_s3_folder_sizes aws bucket_name "base/"
  = Return Spec.example_mapping_root
  ∧ S3BucketSizesWithFolder.get_folder_size_s3 aws bucket_name "base/"
    = IO (Return ("base/", 20, 4, Spec.example_mapping_subfolders))
         [AnalysingObjects bucket_name "base/"].
Proof.
  intros Hclient Hlist. split.
  - unfold S3FolderSizes.get_s3_folder_sizes. rewrite Hclient, Hlist.
    vm_compute. reflexivity.
  - unfold S3BucketSizesWithFolder.get_folder_size_s3. simpl.
    rewrite Hclient, Hlist. vm_compute. reflexivity.
Qed.

Lemma example_grouping_witness :
  S3FolderSizes.get_s3_folder_sizes Spec.example_s3 "bucket" "base/"
  = Return Spec.example_mapping_root
  ∧ S3BucketSizesWithFolder.get_folder_size_s3 Spec.example_s3 "bucket" "base/"
    = IO (Return ("base/", 20, 4, Spec.example_mapping_subfolders))
         [AnalysingObjects "bucket" "base/"].
Proof. apply (example_grouping Spec.example_s3 "bucket"); reflexivity. Defined.

(** C2 as stated fails: on the example listing neither script yields the
    mapping {"a": 15, "(direct files)": 3, "c": 2}; the key
    "(direct files)" occurs in neither result. *)
Lemma example_grouping_not_direct_files :
  S3FolderSizes.get_s3_folder_sizes Spec.example_s3 "bucket" "base/"
  ≠ Return Spec.example_mapping_direct_files
  ∧ ∀ fp total count sub,
      result (S3BucketSizesWithFolder.get_folder_size_s3 Spec.example_s3 "bucket" "base/")
      = Return (fp, total, count, sub) →
      S3BucketSizesWithFolder.size <$> sub ≠ Spec.example_mapping_direct_files.
Proof.
  split.
  - intros H.
    assert (∀ m, S3FolderSizes.get_s3_folder_sizes Spec.example_s3 "bucket" "base/"
                 = Return m → m !! "(direct files)" = None) as Hnone.
    { intros m. vm_compute. by intros [= <-]. }
    apply Hnone in H. vm_compute in H. discriminate.
  - intros fp total count sub Hres Hmap.
    assert (sub !! "(direct files)" = None) as Hnone.
    { revert Hres. vm_compute. by intros [= <- <- <- <-]. }
    apply (f_equal (λ m : gmap string Z, m !! "(direct files)")) in Hmap.
    rewrite lookup_fmap, Hnone in Hmap. vm_compute in Hmap. discriminate.
Qed.

Section metrics.

Import Metrics.





Lemma query_size_answered cw bucket_name datapoints :
  cw_client_error cw = None →
  get_metric_statistics cw Primary bucket_name "StandardStorage" = Ok datapoints →
  query_size cw bucket_name
  = if list_truthy datapoints
    then (size ← latest_size datapoints; Return (bucket_name, size))
    else (total_size ← sum_storage_classes cw bucket_name storage_classes 0;
          Return (bucket_name, total_size)).
Proof. intros Hclient Hprimary. unfold query_size. by rewrite Hclient, Hprimary. Qed.

End metrics.



Section sorting.

Lemma insert_desc_perm x l : insert_desc x l ≡ₚ x :: l.
Proof.
  induction l as [|y rest IH]; simpl; [done|].
  destruct (x.2 <? y.2); [|done]. rewrite IH. apply Permutation_swap.
Qed.

Lemma sort_by_size_desc_perm l : sort_by_size_desc l ≡ₚ l.
Proof.
  induction l as [|x rest IH]; simpl; [done|].
  rewrite insert_desc_perm. by constructor.
Qed.

Lemma insert_desc_sorted x l :
  StronglySorted Spec.by_size_desc l → StronglySorted Spec.by_size_desc (insert_desc x l).
Proof.
  induction 1 as [|y rest Hsorted IH Hall]; simpl.
  - repeat constructor.
  - destruct (Z.ltb_spec x.2 y.2) as [Hlt|Hge].
    + constructor; [done|]. rewrite insert_desc_perm.
      constructor; [unfold Spec.by_size_desc; lia|done].
    + constructor; [by constructor|].
      constructor; [done|].
      eapply Forall_impl; [exact Hall|].
      unfold Spec.by_size_desc. intros z ?. lia.
Qed.

Lemma sort_by_size_desc_sorted l :
  StronglySorted Spec.by_size_desc (sort_by_size_desc l).
Proof.
  induction l as [|x rest IH]; simpl; [constructor|]. by apply insert_desc_sorted.
Qed.

End sorting.

Section workers.

Import Metrics S3BucketSizesFast.

Lemma sum_storage_classes_cases cw bucket_name classes acc :
  (∃ total, sum_storage_classes cw bucket_name classes acc = Return total)
  ∨ (∃ e, sum_storage_classes cw bucket_name classes acc = Raise e).
Proof.
  revert acc. induction classes as [|sc rest IH]; intros acc; simpl; [eauto|].
  destruct (get_metric_statistics cw Fallback bucket_name sc) as [dps|e]; simpl; [|eauto].
  destruct dps as [|d dps]; simpl; apply IH.
Qed.

Lemma query_size_cases cw bucket_name :
  (∃ size, query_size cw bucket_name = Return (bucket_name, size))
  ∨ (∃ e, query_size cw bucket_name = Raise e).
Proof.
  destruct (cw_client_error cw) as [e|] eqn:Hclient.
  { right. exists e. unfold query_size. by rewrite Hclient. }
  destruct (get_metric_statistics cw Primary bucket_name "StandardStorage")
    as [dps|e] eqn:Hprimary.
  2: { right. exists e. unfold query_size. by rewrite Hclient, Hprimary. }
  rewrite (query_size_answered _ _ _ Hclient Hprimary).
  destruct dps as [|d dps]; [|left; by eexists].
  destruct (sum_storage_classes_cases cw bucket_name storage_classes 0)
    as [[total Hsum]|[e Hsum]]; rewrite Hsum; [left|right]; by eexists.
Qed.

(** [get_bucket_size_cloudwatch] always returns an entry for its bucket:
    the queried size and no line, or size 0 and one warning. *)
Lemma get_bucket_size_cloudwatch_cases cw bucket_name :
  (∃ size, query_size cw bucket_name = Return (bucket_name, size)
           ∧ get_bucket_size_cloudwatch cw bucket_name
             = IO (Return (bucket_name, size)) [])
  ∨ (∃ e, query_size cw bucket_name = Raise e
          ∧ get_bucket_size_cloudwatch cw bucket_name
            = IO (Return (bucket_name, 0)) [MetricsWarning bucket_name e]).
Proof.
  unfold get_bucket_size_cloudwatch, Metrics.get_bucket_size_cloudwatch, try_catch.
  destruct (query_size_cases cw bucket_name) as [[size H]|[e H]]; rewrite H; simpl.
  - left. eauto.
  - right. eauto.
Qed.



Lemma future_result_returns cw args :
  ∃ size, result (future_result cw args) = Return (args.1.1, size).
Proof.
  destruct args as [[bucket_name i] n]. unfold future_result. simpl.
  assert (∃ size log, get_bucket_size_cloudwatch cw bucket_name
                      = IO (Return (bucket_name, size)) log) as (size & log & ->).
  { destruct (get_bucket_size_cloudwatch_cases cw bucket_name)
      as [(size & _ & ->)|(e & _ & ->)]; eauto. }
  unfold try_catch, mbind, io_bind, lift. simpl.
  pose proof (format_size_units_no_exit units size) as Hexit.
  unfold format_size.
  destruct (Format.format_size_units units size) as [shown|e|c]; simpl; eauto.
  by destruct (Hexit c).
Qed.

Lemma entry_of_result cw args :
  result (future_result cw args) = Return (Spec.entry_of cw args)
  ∧ (Spec.entry_of cw args).1 = args.1.1.
Proof.
  unfold Spec.entry_of. destruct (future_result_returns cw args) as [size ->]. done.
Qed.

End workers.

Section fan_out.

Import Metrics S3BucketSizesFast.


Lemma collect_result cw tasks completed acc :
  result (collect cw tasks completed acc)
  = Return (acc ++ (Spec.entry_of cw <$> omap (tasks !!.) completed)).
Proof.
  revert acc. induction completed as [|i rest IH]; intros acc; simpl.
  - by rewrite app_nil_r.
  - destruct (tasks !! i) as [args|]; simpl; [|apply IH].
    destruct (entry_of_result cw args) as [Hres _].
    unfold mbind, io_bind. rewrite Hres. simpl. rewrite IH.
    by rewrite <-app_assoc.
Qed.


Lemma omap_lookup_seq {A} (pre l : list A) :
  omap ((pre ++ l) !!.) (seq (length pre) (length l)) = l.
Proof.
  revert pre. induction l as [|x l IH]; intros pre; simpl; [done|].
  rewrite list_lookup_middle by done. f_equal.
  specialize (IH (pre ++ [x])). rewrite <-app_assoc, length_app in IH.
  simpl in IH. by rewrite Nat.add_1_r in IH.
Qed.

Lemma omap_lookup_permutation {A} (l : list A) completed :
  completed ≡ₚ seq 0 (length l) → omap (l !!.) completed ≡ₚ l.
Proof. intros ->. by rewrite <-(omap_lookup_seq [] l) at 2. Qed.

Lemma args_list_names bucket_names i :
  args_list bucket_names !! i
  = (λ b, (b, Z.of_nat i + 1, Z.of_nat (length bucket_names))) <$> bucket_names !! i.
Proof. unfold args_list. by rewrite list_lookup_imap. Qed.

Lemma entries_names cw bucket_names :
  (Spec.entry_of cw <$> args_list bucket_names).*1 = bucket_names.
Proof.
  apply list_eq. intros i.
  rewrite !list_lookup_fmap, args_list_names.
  destruct (bucket_names !! i) as [b|]; simpl; [|done].
  f_equal. apply entry_of_result.
Qed.

Lemma fan_out_result cw bucket_names completed :
  bucket_names ≠ [] →
  completed ≡ₚ seq 0 (length bucket_names) →
  ∃ l, result (fan_out cw bucket_names completed) = Return l
       ∧ l ≡ₚ Spec.entry_of cw <$> args_list bucket_names.
Proof.
  intros Hne Hperm. unfold fan_out, max_workers.
  destruct (Z.leb_spec (Z.min 20 (Z.of_nat (length bucket_names))) 0) as [Hle|_].
  { destruct bucket_names; [done|]. simpl in Hle. lia. }
  rewrite collect_result. eexists. split; [done|]. simpl.
  rewrite omap_lookup_permutation; [done|].
  unfold args_list. by rewrite length_imap.
Qed.

End fan_out.

(** C5: for every non-empty list of bucket names, and whatever the order
    in which the pool (of min(20, N) workers, at least one) completes the
    tasks, the list the fast script displays holds exactly one entry per
    input bucket (its names are a permutation of the input names, its
    entries a permutation of the per-task entries) and is sorted by size,
    largest first. *)
Theorem fan_out_complete_and_sorted (cw : cloudwatch) (bucket_names : list string)
    (completed : list nat) :
  bucket_names ≠ [] →
  completed ≡ₚ seq 0 (length bucket_names) →
  ∃ l, result (S3BucketSizesFast.sorted_bucket_sizes cw bucket_names completed) = Return l
       ∧ l.*1 ≡ₚ bucket_names
       ∧ l ≡ₚ Spec.entry_of cw <$> S3BucketSizesFast.args_list bucket_names
       ∧ length l = length bucket_names
       ∧ StronglySorted Spec.by_size_desc l
       ∧ 1 ≤ S3BucketSizesFast.max_workers bucket_names ≤ 20
       ∧ S3BucketSizesFast.max_workers bucket_names ≤ Z.of_nat (length bucket_names).
Proof.
  intros Hne Hperm.
  destruct (fan_out_result cw bucket_names completed Hne Hperm) as (l & Hres & Hl).
  exists (sort_by_size_desc l).
  assert (sort_by_size_desc l ≡ₚ Spec.entry_of cw <$> S3BucketSizesFast.args_list bucket_names)
    as Hsorted_perm by (by rewrite sort_by_size_desc_perm).
  repeat split.
  - unfold S3BucketSizesFast.sorted_bucket_sizes, mbind, io_bind. by rewrite Hres.
  - by rewrite Hsorted_perm, entries_names.
  - done.
  - rewrite Hsorted_perm, length_fmap. unfold S3BucketSizesFast.args_list.
    by rewrite length_imap.
  - apply sort_by_size_desc_sorted.
  - unfold S3BucketSizesFast.max_workers. destruct bucket_names; [done|]. simpl. lia.
  - unfold S3BucketSizesFast.max_workers. lia.
  - unfold S3BucketSizesFast.max_workers. lia.
Qed.

Lemma fan_out_complete_and_sorted_witness :
  ∃ l, result (S3BucketSizesFast.sorted_bucket_sizes Spec.example_cloudwatch_partial
                 ["a"; "bad"; "c"] [2; 0; 1]%nat) = Return l
       ∧ l.*1 ≡ₚ ["a"; "bad"; "c"]
       ∧ l ≡ₚ Spec.entry_of Spec.example_cloudwatch_partial
               <$> S3BucketSizesFast.args_list ["a"; "bad"; "c"]
       ∧ length l = 3%nat
       ∧ StronglySorted Spec.by_size_desc l
       ∧ 1 ≤ S3BucketSizesFast.max_workers ["a"; "bad"; "c"] ≤ 20
       ∧ S3BucketSizesFast.max_workers ["a"; "bad"; "c"] ≤ 3.
Proof.
  apply (fan_out_complete_and_sorted Spec.example_cloudwatch_partial
           ["a"; "bad"; "c"] [2; 0; 1]%nat).
  - discriminate.
  - simpl. etrans; [apply Permutation_swap|]. apply Permutation_skip, Permutation_swap.
Defined.

Section containment.

Import Metrics S3BucketSizesFast.





End containment.



Section enumeration.

Lemma filter_buckets_spec buckets acc :
  S3BucketSizesFast.filter_buckets buckets acc
  = acc ++ filter (λ name, S3BucketSizesFast.excluded name = false) buckets.
Proof.
  revert acc. induction buckets as [|name rest IH]; intros acc; simpl.
  - by rewrite app_nil_r.
  - rewrite filter_cons. destruct (S3BucketSizesFast.excluded name) eqn:Hex.
    + rewrite decide_False by done. apply IH.
    + rewrite decide_True by done. rewrite IH, <-app_assoc. done.
Qed.

End enumeration.

(** C8: bucket enumeration returns the bucket names in the order of the
    response (the fast script leaves out the excluded names) and prints
    nothing, also when there is no name to return; when listing fails (for
    instance because the credentials are refused) it returns the empty list
    after printing an error line. So a failure and a successful listing,
    empty or not, never have the same outcome, and [main] prints the error
    line before "no buckets found" in the first case only; a failure of the
    credential check of the fast script exits with status 1. *)
Theorem empty_listing_is_not_failure (aws_ok aws_failed : s3) (buckets : list string)
    (e : exn) :
  client_error aws_ok = None →
  list_buckets aws_ok = Ok buckets →
  Spec.listing_fails aws_failed e →
  (S3BucketSizesCli.get_all_bucket_names aws_ok = IO (Return buckets) []
   ∧ S3BucketSizesWithFolder.get_all_bucket_names aws_ok = IO (Return buckets) []
   ∧ S3BucketSizesFast.get_all_bucket_names aws_ok
     = IO (Return (filter (λ name, S3BucketSizesFast.excluded name = false) buckets)) [])
  ∧ (S3BucketSizesCli.get_all_bucket_names aws_failed
     = IO (Return []) [ErrorListingBuckets e]
     ∧ S3BucketSizesWithFolder.get_all_bucket_names aws_failed
       = IO (Return []) [ErrorListingBuckets e]
     ∧ S3BucketSizesFast.get_all_bucket_names aws_failed
       = IO (Return []) [ErrorListingBuckets e])
  ∧ (S3BucketSizesCli.get_all_bucket_names aws_failed
     ≠ S3BucketSizesCli.get_all_bucket_names aws_ok
     ∧ S3BucketSizesWithFolder.get_all_bucket_names aws_failed
       ≠ S3BucketSizesWithFolder.get_all_bucket_names aws_ok
     ∧ S3BucketSizesFast.get_all_bucket_names aws_failed
       ≠ S3BucketSizesFast.get_all_bucket_names aws_ok)
  ∧ (∀ cw completed,
       filter (λ name, S3BucketSizesFast.excluded name = false) buckets = [] →
       S3BucketSizesFast.main None aws_ok cw completed
       = IO (Return ()) [CredentialsVerified; NoBucketsFound]
       ∧ S3BucketSizesFast.main None aws_failed cw completed
         = IO (Return ()) [CredentialsVerified; ErrorListingBuckets e; NoBucketsFound])
  ∧ (∀ sts_e aws cw completed,
       S3BucketSizesFast.main (Some sts_e) aws cw completed
       = IO (Exit 1) [CredentialsError sts_e]).
Proof.
  intros Hclient Hlist Hfail.
  assert (S3BucketSizesCli.get_all_bucket_names aws_ok = IO (Return buckets) []) as Hcli.
  { unfold S3BucketSizesCli.get_all_bucket_names. by rewrite Hclient, Hlist. }
  assert (S3BucketSizesWithFolder.get_all_bucket_names aws_ok = IO (Return buckets) [])
    as Hwf.
  { unfold S3BucketSizesWithFolder.get_all_bucket_names. by rewrite Hclient, Hlist. }
  assert (S3BucketSizesFast.get_all_bucket_names aws_ok
          = IO (Return (filter (λ name, S3BucketSizesFast.excluded name = false) buckets)) [])
    as Hfast.
  { unfold S3BucketSizesFast.get_all_bucket_names. rewrite Hclient, Hlist.
    simpl. unfold try_catch. simpl. by rewrite filter_buckets_spec. }
  assert (S3BucketSizesCli.get_all_bucket_names aws_failed
          = IO (Return []) [ErrorListingBuckets e]) as Hcli'.
  { unfold S3BucketSizesCli.get_all_bucket_names.
    destruct Hfail as [->|[-> ->]]; done. }
  assert (S3BucketSizesWithFolder.get_all_bucket_names aws_failed
          = IO (Return []) [ErrorListingBuckets e]) as Hwf'.
  { unfold S3BucketSizesWithFolder.get_all_bucket_names.
    destruct Hfail as [->|[-> ->]]; done. }
  assert (S3BucketSizesFast.get_all_bucket_names aws_failed
          = IO (Return []) [ErrorListingBuckets e]) as Hfast'.
  { unfold S3BucketSizesFast.get_all_bucket_names.
    destruct Hfail as [->|[-> ->]]; done. }
  split; [done|]. split; [done|]. split.
  { rewrite Hcli, Hwf, Hfast, Hcli', Hwf', Hfast'. repeat split; discriminate. }
  split.
  - intros cw completed Hnone. unfold S3BucketSizesFast.main.
    rewrite Hfast, Hfast', Hnone. done.
  - done.
Qed.

Lemma empty_listing_is_not_failure_witness :
  S3BucketSizesCli.get_all_bucket_names Spec.example_s3_denied
  ≠ S3BucketSizesCli.get_all_bucket_names Spec.example_s3_empty
  ∧ S3BucketSizesFast.get_all_bucket_names Spec.example_s3_denied
    ≠ S3BucketSizesFast.get_all_bucket_names Spec.example_s3_empty.
Proof.
  destruct (empty_listing_is_not_failure Spec.example_s3_empty Spec.example_s3_denied
              [] (Exn "InvalidAccessKeyId") eq_refl eq_refl
              (or_intror (conj eq_refl eq_refl)))
    as (_ & _ & (Hcli & _ & Hfast) & _).
  exact (conj Hcli Hfast).
Defined.

Section regex_facts.

Lemma longest_first_some {A} n min (k : nat → option A) r :
  Re.longest_first n min k = Some r → ∃ m, (min ≤ m ≤ n)%nat ∧ k m = Some r.
Proof.
  induction n as [|n IH]; simpl.
  - destruct (Nat.ltb_spec 0 min); [done|].
    destruct (k 0%nat) eqn:Hk; [|done]. intros [= <-]. exists 0%nat. split; [lia|done].
  - destruct (Nat.ltb_spec (S n) min); [done|].
    destruct (k (S n)) eqn:Hk.
    + intros [= <-]. exists (S n). split; [lia|done].
    + intros H'. destruct n as [|n'].
      * simpl in H'. destruct (Nat.ltb_spec 0 min); [done|].
        destruct (k 0%nat) eqn:Hk0; [|done]. injection H' as <-.
        exists 0%nat. split; [lia|done].
      * destruct (IH H') as (m & Hm & Hkm). exists m. split; [lia|done].
Qed.



End regex_facts.


Lemma cli_size_example :
  S3BucketSizesCli.get_bucket_size_cli
    (Spec.example_run (Completed 0 Spec.example_cli_output "")) "bucket"
  = IO (Return ("bucket", 20)) [].
Proof. vm_compute. reflexivity. Qed.

Section validation.

Import Validation.

Lemma bucket_char_allowed c :
  bucket_char c = bool_decide (c ∈ Spec.allowed_chars).
Proof. destruct c as [[] [] [] [] [] [] [] []]; vm_compute; reflexivity. Qed.

Lemma run_le_max cls m s : (Re.run cls (Some m) s ≤ m)%nat.
Proof.
  revert m. induction s as [|c s IH]; intros [|m]; simpl; try lia.
  destruct (cls c); [|lia]. specialize (IH m). lia.
Qed.

Lemma run_le_length cls max s : (Re.run cls max s ≤ String.length s)%nat.
Proof.
  revert max. induction s as [|c s IH]; intros [[|m]|]; simpl; try lia.
  - destruct (cls c); [|lia]. specialize (IH (Some m)). simpl in IH. lia.
  - destruct (cls c); [|lia]. specialize (IH None). simpl in IH. lia.
Qed.

Lemma take_within_run cls max s n :
  (n ≤ Re.run cls max s)%nat → Spec.all_chars cls (str_take n s).
Proof.
  revert max n. induction s as [|c s IH]; intros max [|n]; simpl; try done.
  destruct max as [[|m]|]; simpl; try lia.
  - destruct (cls c) eqn:Hc; [|lia]. intros Hn. split; [done|].
    apply (IH (Some m)). simpl. lia.
  - destruct (cls c) eqn:Hc; [|lia]. intros Hn. split; [done|].
    apply (IH None). simpl. lia.
Qed.

Lemma str_app_nil_r s : s +:+ EmptyString = s.
Proof.
  induction s as [|c s IH]; [done|].
  change (String c (s +:+ EmptyString) = String c s). by rewrite IH.
Qed.

Lemma take_drop n s : str_take n s +:+ str_drop n s = s.
Proof.
  revert s. induction n as [|n IH]; intros [|c s]; simpl; try done.
  change (String c (str_take n s +:+ str_drop n s) = String c s). by rewrite IH.
Qed.

Lemma length_take n s : (n ≤ String.length s)%nat → String.length (str_take n s) = n.
Proof.
  revert s. induction n as [|n IH]; intros [|c s]; simpl; try done; try lia.
  intros. rewrite IH; lia.
Qed.

Lemma drop_app_length body rest : str_drop (String.length body) (body +:+ rest) = rest.
Proof.
  induction body as [|c body IH]; [done|].
  change (String c body +:+ rest) with (String c (body +:+ rest)). done.
Qed.

(** The run stops exactly after [body] when what follows is the end of the
    string or a character outside the class. *)
Lemma run_exact cls m body rest :
  Spec.all_chars cls body →
  (String.length body ≤ m)%nat →
  match rest with EmptyString => True | String c _ => cls c = false end →
  Re.run cls (Some m) (body +:+ rest) = String.length body.
Proof.
  revert m. induction body as [|c body IH]; intros m Hall Hlen Hrest.
  - change (EmptyString +:+ rest) with rest.
    destruct rest as [|c rest]; [by destruct m|]. destruct m; [done|].
    simpl. by rewrite Hrest.
  - change (String c body +:+ rest) with (String c (body +:+ rest)).
    destruct Hall as [Hc Hall]. destruct m as [|m]; simpl in *; [lia|].
    rewrite Hc. f_equal. apply IH; [done|lia|done].
Qed.

Lemma longest_first_top {A} n min (k : nat → option A) r :
  (min ≤ n)%nat → k n = Some r → Re.longest_first n min k = Some r.
Proof.
  intros Hmin Hk. destruct n as [|n]; simpl.
  - destruct (Nat.ltb_spec 0 min); [lia|]. by rewrite Hk.
  - destruct (Nat.ltb_spec (S n) min); [lia|]. by rewrite Hk.
Qed.

Lemma all_chars_ext cls cls' s :
  (∀ c, cls c = cls' c) → Spec.all_chars cls s → Spec.all_chars cls' s.
Proof.
  intros Heq. induction s as [|c s IH]; simpl; [done|].
  intros [Hc Hs]. split; [by rewrite <-Heq|by apply IH].
Qed.

Lemma bucket_regex_valid bucket :
  Re.re_match BUCKET_REGEX bucket ≠ None ↔ Spec.valid_bucket_name bucket.
Proof.
  unfold Re.re_match, BUCKET_REGEX. cbn [Re.match_here].
  set (k := λ n : nat, _). split.
  - destruct (Re.longest_first _ 3 k) as [groups|] eqn:Hmatch; [intros _|done].
    apply longest_first_some in Hmatch as (m & [Hmin Hmax] & Hk).
    pose proof (run_le_max bucket_char 63 bucket).
    pose proof (run_le_length bucket_char (Some 63%nat) bucket).
    exists (str_take m bucket). split; [|split].
    + rewrite <-(take_drop m bucket) at 1 3. subst k. simpl in Hk.
      destruct (str_drop m bucket) as [|c rest] eqn:Hrest.
      * left. apply str_app_nil_r.
      * right. destruct c as [[] [] [] [] [] [] [] []]; try done.
        by destruct rest.
    + rewrite length_take; lia.
    + eapply all_chars_ext; [apply bucket_char_allowed|].
      by eapply take_within_run.
  - intros (body & Hshape & [Hmin Hmax] & Hall).
    apply (all_chars_ext _ bucket_char) in Hall;
      [|intros; symmetry; apply bucket_char_allowed].
    assert (∃ rest, bucket = body +:+ rest
                    ∧ (rest = EmptyString ∨ rest = String "010" EmptyString))
      as (rest & -> & Hrest).
    { destruct Hshape as [->| ->].
      - exists EmptyString. split; [|by left]. by rewrite str_app_nil_r.
      - eexists. split; [done|by right]. }
    rewrite (run_exact bucket_char 63 body rest Hall Hmax)
      by (by destruct Hrest as [-> | ->]).
    rewrite (longest_first_top _ _ _ []); [done|lia|].
    subst k. simpl. rewrite drop_app_length. by destruct Hrest as [-> | ->].
Qed.

Lemma split1_first_segment arg : ∃ ps, split1 "/" arg = Spec.first_segment arg :: ps
                                       ∧ (length ps ≤ 1)%nat.
Proof.
  induction arg as [|c arg (ps & IH & Hlen)]; simpl.
  - exists []. split; [done|]. simpl. lia.
  - destruct (Ascii.eqb c "/").
    + exists [arg]. split; [done|]. simpl. lia.
    + rewrite IH. by exists ps.
Qed.

Lemma parse_bucket_and_prefix_bucket arg :
  ∃ prefix, parse_bucket_and_prefix arg = Return (Spec.first_segment arg, prefix).
Proof.
  unfold parse_bucket_and_prefix.
  destruct (split1_first_segment arg) as (ps & -> & Hlen).
  destruct ps as [|p ps]; [by eexists|].
  cbn [index lookup list_lookup mbind outcome_bind bind length].
  destruct (decide _) as [_|Hn]; [by eexists|]. simpl in Hn. lia.
Qed.

End validation.

(** Validation accepts a bucket name exactly when [re.match] finds the
    pattern [^[a-z0-9.\\-_]{3,63}$] in it, that is when the name consists
    of 3 to 63 characters among a-z, 0-9, '.', '-' and '_' (followed by
    nothing, or by the single final newline that [$] tolerates); every
    other name makes the script print a line and exit with code 1.
    "AB_invalid_UPPER!" is rejected and "valid-bucket.name_123" is
    accepted. *)
Theorem bucket_name_validation (bucket : string) :
  (Re.re_match Validation.BUCKET_REGEX bucket ≠ None ↔ Spec.valid_bucket_name bucket)
  ∧ (Spec.valid_bucket_name bucket → Validation.validate bucket = IO (Return ()) [])
  ∧ (¬ Spec.valid_bucket_name bucket →
     Validation.validate bucket = IO (Exit 1) [InvalidBucketName bucket])
  ∧ (∀ aws prog arg depth,
       Spec.first_segment arg = bucket →
       ¬ Spec.valid_bucket_name bucket →
       S3FolderSizes.main aws [prog; arg] = IO (Exit 1) [InvalidBucketName bucket]
       ∧ S3FolderSizes2Level.main aws arg depth
         = IO (Exit 1) [InvalidBucketName bucket])
  ∧ Validation.validate "AB_invalid_UPPER!"
    = IO (Exit 1) [InvalidBucketName "AB_invalid_UPPER!"]
  ∧ Validation.validate "valid-bucket.name_123" = IO (Return ()) [].
Proof.
  pose proof (bucket_regex_valid bucket) as Hiff.
  assert (¬ Spec.valid_bucket_name bucket →
          Validation.validate bucket = IO (Exit 1) [InvalidBucketName bucket]) as Hreject.
  { intros Hinvalid. unfold Validation.validate.
    destruct (Re.re_match Validation.BUCKET_REGEX bucket) eqn:Hm; [|done].
    destruct Hinvalid. by apply Hiff. }
  split; [done|]. split; [|split; [done|split; [|done]]].
  - intros Hvalid%Hiff. unfold Validation.validate.
    by destruct (Re.re_match Validation.BUCKET_REGEX bucket).
  - intros aws prog arg depth <- Hinvalid.
    destruct (parse_bucket_and_prefix_bucket arg) as [prefix Hparse].
    assert (∀ k : () → io (),
              Validation.validate (Spec.first_segment arg) ≫= k
              = IO (Exit 1) [InvalidBucketName (Spec.first_segment arg)]) as Hexit.
    { intros k. rewrite (io_bind_exit_first _ _ 1); by rewrite (Hreject Hinvalid). }
    unfold S3FolderSizes.main, S3FolderSizes2Level.main,
      S3FolderSizes.parse_bucket_and_prefix, S3FolderSizes2Level.parse_bucket_and_prefix.
    rewrite Hparse, !lift_return_bind, Hexit. split; [|done].
    rewrite decide_False by (simpl; lia).
    change (index [prog; arg] 1) with (Return (A := string) arg).
    by rewrite lift_return_bind, Hparse, lift_return_bind, Hexit.
Qed.

Section float_facts.

Lemma round_to_53_bits_small n : 0 ≤ n < 2 ^ 53 → round_to_53_bits n = n.
Proof.
  intros [Hlo Hhi]. unfold round_to_53_bits.
  destruct (Z.ltb_spec (Z.log2 n) 53) as [_|Hlog]; [done|].
  destruct (decide (n = 0)) as [->|Hne]; [done|].
  apply Z.log2_lt_pow2 in Hhi; lia.
Qed.

Lemma round_to_53_bits_bounds n :
  2 ^ 53 ≤ n →
  2 ^ 53 ≤ round_to_53_bits n ≤ 2 ^ (Z.log2 n + 1).
Proof.
  intros Hn. unfold round_to_53_bits.
  assert (0 < n) as Hpos by lia.
  pose proof (Z.log2_spec n Hpos) as [Hlo Hhi].
  assert (53 ≤ Z.log2 n) as Hlog by (apply Z.log2_le_pow2; lia).
  destruct (Z.ltb_spec (Z.log2 n) 53) as [?|_]; [lia|].
  set (e := Z.log2 n) in *. set (s := e - 52).
  assert (0 < 2 ^ s) as Hs by (apply Z.pow_pos_nonneg; lia).
  assert (2 ^ e = 2 ^ 52 * 2 ^ s) as He.
  { rewrite <-Z.pow_add_r by lia. f_equal. lia. }
  assert (2 ^ Z.succ e = 2 ^ 53 * 2 ^ s) as He'.
  { rewrite <-Z.pow_add_r by lia. f_equal. lia. }
  rewrite Z.shiftr_div_pow2 by lia.
  assert (2 ^ 52 ≤ n `div` 2 ^ s) as Hq.
  { apply Z.div_le_lower_bound; lia. }
  assert (n `div` 2 ^ s < 2 ^ 53) as Hq'.
  { apply Z.div_lt_upper_bound; lia. }
  set (q := n `div` 2 ^ s) in *.
  match goal with |- context [Z.shiftl ?x s] => set (q' := x) end.
  assert (q ≤ q' ≤ q + 1) as Hq''.
  { subst q'. destruct (_ || _); lia. }
  rewrite Z.shiftl_mul_pow2 by lia.
  replace (e + 1) with (Z.succ e) by lia. rewrite He'.
  assert (2 ^ 53 ≤ 2 ^ e) by (apply Z.pow_le_mono_r; lia).
  split; nia.
Qed.

End float_facts.
Lemma float_of_int_nonneg n :
  0 < n < 2 ^ 1023 →
  ∃ F, float_of_int n = Return (inject_Z F)
       ∧ (n < 2 ^ 53 → F = n) ∧ (2 ^ 53 ≤ n → 2 ^ 53 ≤ F).
Proof.
  intros [Hlo Hhi]. unfold float_of_int.
  rewrite Z.abs_eq by lia. rewrite Z.sgn_pos by lia.
  exists (round_to_53_bits n).
  assert (round_to_53_bits n < 2 ^ 1024) as Hbound.
  { destruct (Z.lt_ge_cases n (2 ^ 53)) as [Hsmall|Hbig].
    - rewrite round_to_53_bits_small by lia.
      etrans; [exact Hhi|]. by apply Z.pow_lt_mono_r.
    - destruct (round_to_53_bits_bounds n Hbig) as [_ Hup].
      eapply Z.le_lt_trans; [exact Hup|].
      apply Z.pow_lt_mono_r; [lia|lia|].
      assert (Z.log2 n < 1023) by (apply Z.log2_lt_pow2; lia). lia. }
  destruct (Z.leb_spec (2 ^ 1024) (round_to_53_bits n)) as [?|_]; [lia|].
  split; [by rewrite Z.mul_1_l|]. split.
  - intros. apply round_to_53_bits_small. lia.
  - intros Hbig. apply (round_to_53_bits_bounds n Hbig).
Qed.

Section scale_facts.

Lemma Qdiv_pow_le (c F P : Z) :
  0 < P → (inject_Z c <= inject_Z F / inject_Z P)%Q ↔ c * P ≤ F.
Proof.
  intros HP. destruct P as [|p|p]; try lia.
  unfold Qle, Qdiv, Qmult, Qinv, inject_Z. simpl.
  rewrite Pos.mul_1_l. lia.
Qed.

Lemma Qdiv_pow_lt (c F P : Z) :
  0 < P → (inject_Z F / inject_Z P < inject_Z c)%Q ↔ F < c * P.
Proof.
  intros HP. destruct P as [|p|p]; try lia.
  unfold Qlt, Qdiv, Qmult, Qinv, inject_Z. simpl.
  rewrite Pos.mul_1_l. lia.
Qed.

Lemma Qdiv_pow_step (x : Q) (F P : Z) :
  0 < P → (x == inject_Z F / inject_Z P)%Q →
  (x / 1024 == inject_Z F / inject_Z (P * 1024))%Q.
Proof.
  intros HP Hx. rewrite Hx, inject_Z_mult.
  assert (~ inject_Z P == 0)%Q.
  { destruct P; try lia. done. }
  field. done.
Qed.

End scale_facts.
Section scale_loop.

Lemma pow1024_pos k : 0 < 1024 ^ Z.of_nat k.
Proof. apply Z.pow_pos_nonneg; lia. Qed.

Lemma pow1024_succ k : 1024 ^ Z.of_nat (k + 1) = 1024 ^ Z.of_nat k * 1024.
Proof. rewrite Nat2Z.inj_add, Z.pow_add_r by lia. done. Qed.

Lemma scale_spec units F fuel size idx :
  (size == inject_Z F / inject_Z (1024 ^ Z.of_nat idx))%Q →
  1024 ^ Z.of_nat idx ≤ F →
  (length units ≤ idx + fuel + 1)%nat →
  ∃ size' k, Format.scale fuel units size idx = (size', k)
    ∧ (idx ≤ k)%nat
    ∧ (k = idx → size' = size)
    ∧ (k = idx ∨ k < length units)%nat
    ∧ (size' == inject_Z F / inject_Z (1024 ^ Z.of_nat k))%Q
    ∧ 1024 ^ Z.of_nat k ≤ F
    ∧ ((k + 1 < length units)%nat → F < 1024 ^ Z.of_nat (k + 1)).
Proof.
  revert size idx. induction fuel as [|fuel IH]; intros size idx Hsize Hlow Hfuel.
  - exists size, idx. simpl. repeat split; first [done|lia|by left].
  - simpl.
    destruct (Qle_bool 1024 size) eqn:Hge; simpl.
    + destruct (Z.ltb_spec (Z.of_nat idx) (Z.of_nat (length units) - 1)) as [Hidx|Hidx].
      * apply Qle_bool_iff in Hge. rewrite Hsize in Hge.
        change (1024%Q) with (inject_Z 1024) in Hge.
        apply (proj1 (Qdiv_pow_le _ _ _ (pow1024_pos idx))) in Hge.
        destruct (IH (size / 1024)%Q (idx + 1)%nat) as (size' & k & Hk).
        { rewrite pow1024_succ. apply Qdiv_pow_step; [apply pow1024_pos|done]. }
        { rewrite pow1024_succ. lia. }
        { lia. }
        destruct Hk as (Hscale & Hle & Hsame & Hlt & Hsize' & Hlow' & Hup).
        exists size', k. split; [done|]. split; [lia|]. split; [intros ->; lia|].
        split; [right; lia|]. done.
      * exists size, idx. repeat split; first [done|lia|by left].
    + exists size, idx. split; [done|]. split; [done|]. split; [done|].
      split; [by left|]. split; [done|]. split; [done|].
      intros _. rewrite pow1024_succ.
      destruct (Z.lt_ge_cases F (1024 ^ Z.of_nat idx * 1024)) as [?|Hge']; [done|].
      assert (Qle_bool 1024 size = true); [|congruence].
      apply Qle_bool_iff. rewrite Hsize. change (1024%Q) with (inject_Z 1024).
      apply (proj2 (Qdiv_pow_le _ _ _ (pow1024_pos idx))). lia.
Qed.

End scale_loop.
Section rendering.

Lemma round_half_even_bounds x :
  Qfloor x ≤ round_half_even x ≤ Qfloor x + 1.
Proof.
  unfold round_half_even. destruct (_ ?= _)%Q; [destruct (Z.even _)|..]; lia.
Qed.

Lemma hundredths_bounds q :
  (1 <= q)%Q →
  100 ≤ hundredths q ∧ ((q < 1024)%Q → hundredths q ≤ 102400).
Proof.
  intros Hq. unfold hundredths.
  assert (Qabs q == q)%Q as Habs by (apply Qabs_pos; lra).
  pose proof (round_half_even_bounds (Qabs q * 100)) as [Hlo Hhi].
  split.
  - assert (Qfloor (inject_Z 100) ≤ Qfloor (Qabs q * 100)) as Hfl.
    { apply Qfloor_resp_le. rewrite Habs. change (inject_Z 100) with 100%Q. lra. }
    rewrite Qfloor_Z in Hfl. lia.
  - intros Hlt.
    assert (Qfloor (Qabs q * 100) < 102400); [|lia].
    rewrite Zlt_Qlt. eapply Qle_lt_trans; [apply Qfloor_le|].
    rewrite Habs. change (inject_Z 102400) with 102400%Q. lra.
Qed.

Lemma int_of_float_inject_Z n : int_of_float (inject_Z n) = n.
Proof. unfold int_of_float. simpl. apply Z.quot_1_r. Qed.

Lemma pow1024_le_2_50 k : (k ≤ 5)%nat → 1024 ^ Z.of_nat k ≤ 2 ^ 50.
Proof.
  intros Hk. change (2 ^ 50) with (1024 ^ 5). apply Z.pow_le_mono_r; lia.
Qed.

Lemma format_size_units_positive units n :
  (2 ≤ length units ≤ 6)%nat →
  0 < n < 2 ^ 1023 →
  ∃ (k : nat) (q : Q) (unit : string),
    units !! k = Some unit
    ∧ 1024 ^ Z.of_nat k ≤ n
    ∧ ((k + 1 < length units)%nat → n < 1024 ^ Z.of_nat (k + 1))
    ∧ (q == inject_Z (round_to_53_bits n) / inject_Z (1024 ^ Z.of_nat k))%Q
    ∧ (1 <= q)%Q
    ∧ ((k + 1 < length units)%nat → (q < 1024)%Q)
    ∧ Format.format_size_units units n
      = Return (if (k =? 0)%nat then pretty n +:+ " " +:+ unit
                else format_2f q +:+ " " +:+ unit).
Proof.
  intros [Hlen Hlen'] Hn. unfold Format.format_size_units.
  destruct (Z.eqb_spec n 0) as [?|_]; [lia|].
  destruct (float_of_int_nonneg n Hn) as (F & HF & Hsmall & Hbig).
  assert (F = round_to_53_bits n) as HFdef.
  { revert HF. unfold float_of_int. destruct (_ <=? _); [done|].
    rewrite Z.sgn_pos, Z.mul_1_l, Z.abs_eq by lia.
    intros [= H]. done. }
  rewrite HF. cbn [mbind outcome_bind bind].
  assert (0 < F) as HFpos.
  { destruct (Z.lt_ge_cases n (2 ^ 53)); [rewrite Hsmall; lia|].
    specialize (Hbig ltac:(done)). lia. }
  destruct (scale_spec units F (length units) (inject_Z F) 0)
    as (size' & k & Hscale & _ & Hsame & Hk & Hsize' & Hlow & Hup).
  { unfold Qeq, Qdiv, Qmult, Qinv, inject_Z. simpl. lia. }
  { simpl. lia. }
  { lia. }
  rewrite Hscale.
  assert (k < length units)%nat as Hklt by (destruct Hk; lia).
  destruct (lookup_lt_is_Some_2 units k Hklt) as [unit Hunit].
  assert (1024 ^ Z.of_nat k ≤ 2 ^ 50) as Hpow by (apply pow1024_le_2_50; lia).
  assert ((2:Z) ^ 50 < 2 ^ 53) as H5053 by done.
  assert (1024 ^ Z.of_nat k ≤ n) as Hlow_n.
  { destruct (Z.lt_ge_cases n (2 ^ 53)); [rewrite <-Hsmall; lia|lia]. }
  assert ((k + 1 < length units)%nat → n < 1024 ^ Z.of_nat (k + 1) ∧ F = n) as Hup_n.
  { intros Hk1. specialize (Hup Hk1).
    assert (1024 ^ Z.of_nat (k + 1) ≤ 2 ^ 50) by (apply pow1024_le_2_50; lia).
    destruct (Z.lt_ge_cases n (2 ^ 53)) as [?|Hge].
    - rewrite Hsmall in Hup by done. split; [done|]. by apply Hsmall.
    - specialize (Hbig Hge). lia. }
  exists k, size', unit.
  split; [done|]. split; [done|]. split; [intros; by apply Hup_n|].
  split; [by rewrite <-HFdef|].
  assert (1 <= size')%Q as Hone.
  { rewrite Hsize'. change 1%Q with (inject_Z 1).
    apply (proj2 (Qdiv_pow_le _ _ _ (pow1024_pos k))). lia. }
  split; [done|]. split.
  { intros Hk1. rewrite Hsize'. change 1024%Q with (inject_Z 1024).
    apply (proj2 (Qdiv_pow_lt _ _ _ (pow1024_pos k))).
    specialize (Hup Hk1). rewrite pow1024_succ in Hup. lia. }
  unfold index. rewrite Hunit. cbn [mbind outcome_bind bind].
  destruct (Nat.eqb_spec k 0) as [->|Hk0]; [|done].
  rewrite (Hsame eq_refl), int_of_float_inject_Z.
  destruct (Hup_n ltac:(lia)) as [_ ->]. done.
Qed.

End rendering.

(** [format_size] on a positive byte count below 2^1023 (for which
    [float] does not overflow), in each of the three scripts: it returns,
    never raises; the unit shown is the largest one not above the count
    (units[k] with 1024^k <= n, and n < 1024^(k+1) unless units[k] is the
    last unit); bytes are shown as the integer itself, every other unit as
    the scaled float value q = float(n) / 1024^k printed with two decimals,
    where 1 <= q, and q < 1024 unless the unit is the last one; the number
    of hundredths printed is then at least 100 and at most 102400. *)
Theorem format_size_chooses_unit (format_size : Z → outcome string)
    (units : list string) (n : Z) :
  (format_size, units)
  ∈ [(S3BucketSizesFast.format_size, S3BucketSizesFast.units);
     (S3BucketSizesCli.format_size, S3BucketSizesCli.units);
     (S3BucketSizesWithFolder.format_size, S3BucketSizesWithFolder.units)] →
  0 < n < 2 ^ 1023 →
  ∃ (k : nat) (q : Q) (unit : string),
    units !! k = Some unit
    ∧ 1024 ^ Z.of_nat k ≤ n
    ∧ ((k + 1 < length units)%nat → n < 1024 ^ Z.of_nat (k + 1))
    ∧ (q == inject_Z (round_to_53_bits n) / inject_Z (1024 ^ Z.of_nat k))%Q
    ∧ (1 <= q)%Q
    ∧ ((k + 1 < length units)%nat → (q < 1024)%Q)
    ∧ format_size n
      = Return (if (k =? 0)%nat then pretty n +:+ " " +:+ unit
                else format_2f q +:+ " " +:+ unit)
    ∧ 100 ≤ hundredths q
    ∧ ((k + 1 < length units)%nat → hundredths q ≤ 102400).
Proof.
  intros Hin Hn.
  assert (format_size = Format.format_size_units units ∧ (2 ≤ length units ≤ 6)%nat)
    as [-> Hlen].
  { repeat (apply elem_of_cons in Hin as [[= -> ->]|Hin]; [split; [done|simpl; lia]|]).
    by apply elem_of_nil in Hin. }
  destruct (format_size_units_positive units n Hlen Hn)
    as (k & q & unit & Hunit & Hlow & Hup & Hq & Hone & Hlt & Hres).
  destruct (hundredths_bounds q Hone) as [Hh Hh'].
  exists k, q, unit. repeat split; try done. intros. by apply Hh', Hlt.
Qed.

Lemma format_size_chooses_unit_witness :
  ∃ (k : nat) (q : Q) (unit : string),
    S3BucketSizesCli.units !! k = Some unit
    ∧ 1024 ^ Z.of_nat k ≤ 123456789
    ∧ ((k + 1 < length S3BucketSizesCli.units)%nat → 123456789 < 1024 ^ Z.of_nat (k + 1))
    ∧ (q == inject_Z (round_to_53_bits 123456789) / inject_Z (1024 ^ Z.of_nat k))%Q
    ∧ (1 <= q)%Q
    ∧ ((k + 1 < length S3BucketSizesCli.units)%nat → (q < 1024)%Q)
    ∧ S3BucketSizesCli.format_size 123456789
      = Return (if (k =? 0)%nat then pretty 123456789 +:+ " " +:+ unit
                else format_2f q +:+ " " +:+ unit)
    ∧ 100 ≤ hundredths q
    ∧ ((k + 1 < length S3BucketSizesCli.units)%nat → hundredths q ≤ 102400).
Proof.
  apply (format_size_chooses_unit S3BucketSizesCli.format_size S3BucketSizesCli.units
           123456789).
  - apply list_elem_of_further, list_elem_of_here.
  - split; [lia|]. apply Z.ltb_lt. vm_compute. reflexivity.
Defined.

Section rounding_up.

Lemma Qdiv_frac_le (a b F P : Z) :
  0 < b → 0 < P →
  (inject_Z a / inject_Z b <= inject_Z F / inject_Z P)%Q ↔ a * P ≤ F * b.
Proof.
  intros Hb HP. destruct P as [|p|p]; try lia. destruct b as [|b|b]; try lia.
  unfold Qle, Qdiv, Qmult, Qinv, inject_Z. simpl.
  rewrite !Pos.mul_1_l. lia.
Qed.

Lemma round_half_even_upper_half x f :
  Z.odd f = true →
  (inject_Z f + (1 # 2) <= x)%Q → (x < inject_Z (f + 1))%Q →
  round_half_even x = f + 1.
Proof.
  intros Hodd Hlo Hhi.
  assert (Qfloor x = f) as Hfloor.
  { assert (f ≤ Qfloor x).
    { rewrite <-(Qfloor_Z f) at 1. apply Qfloor_resp_le.
      assert (inject_Z f <= inject_Z f + (1 # 2))%Q by lra. lra. }
    assert (Qfloor x < f + 1); [|lia].
    rewrite Zlt_Qlt. eapply Qle_lt_trans; [apply Qfloor_le|done]. }
  unfold round_half_even. rewrite Hfloor.
  destruct (x - inject_Z f ?= 1 # 2)%Q eqn:Hcmp; [| |done].
  - rewrite <-Z.negb_odd, Hodd. done.
  - apply Qlt_alt in Hcmp. lra.
Qed.

End rounding_up.

Section below_a_boundary.

Lemma script_units format_size units :
  (format_size, units)
  ∈ [(S3BucketSizesFast.format_size, S3BucketSizesFast.units);
     (S3BucketSizesCli.format_size, S3BucketSizesCli.units);
     (S3BucketSizesWithFolder.format_size, S3BucketSizesWithFolder.units)] →
  format_size = Format.format_size_units units
  ∧ (2 ≤ length units ≤ 6)%nat
  ∧ units !! 0%nat = Some "B".
Proof.
  intros Hin.
  repeat (apply elem_of_cons in Hin as [[= -> ->]|Hin];
          [split; [done|split; [simpl; lia|done]]|]).
  by apply elem_of_nil in Hin.
Qed.

Lemma pow1024_mono j k : (j ≤ k)%nat → 1024 ^ Z.of_nat j ≤ 1024 ^ Z.of_nat k.
Proof. intros. apply Z.pow_le_mono_r; lia. Qed.

Lemma format_2f_1024 q :
  (1 <= q)%Q → hundredths q = 102400 → format_2f q = "1024.00".
Proof.
  intros Hq Hh. unfold format_2f. rewrite Hh.
  assert (Qle_bool 0 q = true) as -> by (apply Qle_bool_iff; lra).
  reflexivity.
Qed.

End below_a_boundary.

(** Just below a unit boundary the two-decimal rendering rounds up to the
    next power: for a unit units[k] other than bytes and other than the last
    one, every count n with 1023.995 * 1024^k <= n < 1024^(k+1) is shown as
    "1024.00" followed by that unit (for instance 1048575 bytes as
    "1024.00 KB"), in each of the three scripts. *)
Theorem format_size_shows_1024 (format_size : Z → outcome string)
    (units : list string) (k : nat) (unit : string) (n : Z) :
  (format_size, units)
  ∈ [(S3BucketSizesFast.format_size, S3BucketSizesFast.units);
     (S3BucketSizesCli.format_size, S3BucketSizesCli.units);
     (S3BucketSizesWithFolder.format_size, S3BucketSizesWithFolder.units)] →
  (1 ≤ k)%nat → (k + 1 < length units)%nat → units !! k = Some unit →
  1023995 * 1024 ^ Z.of_nat k ≤ 1000 * n → n < 1024 ^ Z.of_nat (k + 1) →
  format_size n = Return ("1024.00 " +:+ unit).
Proof.
  intros Hin Hk1 Hk2 Hunit Hlo Hhi.
  destruct (script_units _ _ Hin) as (-> & Hlen & _).
  pose proof (pow1024_pos k) as HP.
  assert (1024 ^ Z.of_nat (k + 1) ≤ 2 ^ 50) as Hpow by (apply pow1024_le_2_50; lia).
  assert ((2:Z) ^ 50 < 2 ^ 53) as H5053 by done.
  assert ((2:Z) ^ 53 < 2 ^ 1023) as H531023 by (by apply Z.pow_lt_mono_r).
  assert (0 < n < 2 ^ 1023) as Hn by lia.
  destruct (format_size_units_positive units n Hlen Hn)
    as (k' & q & unit' & Hunit' & Hlow' & Hup' & Hq & Hone & Hlt & ->).
  assert (k' = k) as ->.
  { destruct (Nat.lt_trichotomy k' k) as [Hlt'|[?|Hgt]]; [|done|].
    - pose proof (Hup' ltac:(lia)).
      pose proof (pow1024_mono (k' + 1) k ltac:(lia)). lia.
    - pose proof (pow1024_mono (k + 1) k' ltac:(lia)). lia. }
  assert (unit' = unit) as -> by congruence.
  rewrite round_to_53_bits_small in Hq by lia.
  destruct (Nat.eqb_spec k 0) as [?|_]; [lia|].
  rewrite (format_2f_1024 q Hone); [done|].
  unfold hundredths. change 102400 with (102399 + 1).
  assert (Qabs q == q)%Q as Habs by (apply Qabs_pos; lra).
  assert (1023995 # 1000 <= q)%Q as Hlow_q.
  { rewrite Hq. destruct (1024 ^ Z.of_nat k) as [|p|p]; try lia.
    unfold Qle, Qdiv, Qmult, Qinv, inject_Z. simpl. lia. }
  specialize (Hlt Hk2).
  apply round_half_even_upper_half; [done|..]; rewrite Habs.
  - change (inject_Z 102399) with 102399%Q. lra.
  - change (inject_Z (102399 + 1)) with 102400%Q. lra.
Qed.

Lemma format_size_shows_1024_witness :
  S3BucketSizesFast.format_size 1048575 = Return ("1024.00 " +:+ "KB").
Proof.
  apply (format_size_shows_1024 S3BucketSizesFast.format_size S3BucketSizesFast.units
           1 "KB" 1048575).
  - apply list_elem_of_here.
  - lia.
  - simpl. lia.
  - reflexivity.
  - simpl. lia.
  - simpl. lia.
Defined.

(** A count that is zero or negative (above -2^53) is never scaled: it is
    shown as the integer itself followed by "B", "0 B" for zero, in each
    of the three scripts. *)
Theorem format_size_nonpositive_in_bytes (format_size : Z → outcome string)
    (units : list string) (n : Z) :
  (format_size, units)
  ∈ [(S3BucketSizesFast.format_size, S3BucketSizesFast.units);
     (S3BucketSizesCli.format_size, S3BucketSizesCli.units);
     (S3BucketSizesWithFolder.format_size, S3BucketSizesWithFolder.units)] →
  - 2 ^ 53 < n ≤ 0 →
  format_size n = Return (pretty n +:+ " B")
  ∧ format_size 0 = Return "0 B".
Proof.
  intros Hin [Hlo Hhi].
  destruct (script_units _ _ Hin) as (-> & Hlen & Hunit).
  split; [|done].
  unfold Format.format_size_units.
  destruct (Z.eqb_spec n 0) as [->|Hne]; [done|].
  unfold float_of_int.
  rewrite round_to_53_bits_small by lia.
  assert ((2:Z) ^ 53 < 2 ^ 1024) as Hbig by (by apply Z.pow_lt_mono_r).
  destruct (Z.leb_spec (2 ^ 1024) (Z.abs n)) as [?|_]; [lia|].
  rewrite Z.sgn_neg by lia.
  replace (-1 * Z.abs n) with n by lia.
  cbn [mbind outcome_bind bind].
  destruct units as [|u0 units]; [simpl in Hlen; lia|].
  assert (Qle_bool 1024 (inject_Z n) = false) as Hsmall.
  { apply not_true_is_false. rewrite Qle_bool_iff.
    change 1024%Q with (inject_Z 1024). rewrite <-Zle_Qle. lia. }
  cbn [length Format.scale]. rewrite Hsmall. cbn [andb].
  unfold index. rewrite Hunit. cbn [mbind outcome_bind bind Nat.eqb].
  by rewrite int_of_float_inject_Z.
Qed.

Lemma format_size_nonpositive_in_bytes_witness :
  S3BucketSizesCli.format_size (-2000) = Return (pretty (-2000) +:+ " B")
  ∧ S3BucketSizesCli.format_size 0 = Return "0 B".
Proof.
  apply (format_size_nonpositive_in_bytes S3BucketSizesCli.format_size
           S3BucketSizesCli.units (-2000)).
  - apply list_elem_of_further, list_elem_of_here.
  - split; [|lia]. apply Z.ltb_lt. reflexivity.
Defined.

Section per_key.

Lemma total_bytes_cons obj objs :
  Spec.total_bytes (obj :: objs) = Size obj + Spec.total_bytes objs.
Proof. done. Qed.

(** Adding sizes to a [defaultdict(int)] under the keys [key_of] gives, at
    every key, the old value plus the bytes of the objects under that key;
    a key without objects is left as it was. *)
Lemma grouped_lookup (key_of : string → string) (objs : list s3_object)
    (m : gmap string Z) (k : string) :
  foldl (λ acc obj, <[key_of (Key obj) := default 0 (acc !! key_of (Key obj)) + Size obj]> acc)
    m objs !! k
  = match Grouping.keyed key_of k objs with
    | [] => m !! k
    | l => Some (default 0 (m !! k) + Spec.total_bytes l)
    end.
Proof.
  revert m. induction objs as [|obj rest IH]; intros m; simpl; [done|].
  rewrite IH. unfold Grouping.keyed. rewrite filter_cons.
  destruct (decide (key_of (Key obj) = k)) as [->|Hne].
  - rewrite lookup_insert_eq. simpl.
    destruct (filter _ rest) as [|o l]; simpl.
    + f_equal. unfold Spec.total_bytes. simpl. lia.
    + f_equal. unfold Spec.total_bytes. simpl. lia.
  - rewrite lookup_insert_ne by done. done.
Qed.

Lemma single_add_objects_foldl prefix contents m :
  S3FolderSizes.add_objects prefix contents m
  = Return (foldl (λ acc obj,
              <[Spec.single_level_key prefix (Key obj)
                := default 0 (acc !! Spec.single_level_key prefix (Key obj)) + Size obj]> acc)
              m contents).
Proof.
  revert m. induction contents as [|obj rest IH]; intros m; simpl; [done|].
  rewrite single_folder_of. simpl. apply IH.
Qed.

Lemma single_add_pages_foldl prefix ps m :
  Spec.failure_of ps = None →
  S3FolderSizes.add_pages prefix ps m
  = Return (foldl (λ acc obj,
              <[Spec.single_level_key prefix (Key obj)
                := default 0 (acc !! Spec.single_level_key prefix (Key obj)) + Size obj]> acc)
              m (Spec.objects_of ps)).
Proof.
  revert m. induction ps as [|contents rest IH|e]; intros m Hok; simpl; [done| |done].
  rewrite single_add_objects_foldl. simpl. rewrite IH by done.
  by rewrite foldl_app.
Qed.

Lemma depth_folder_of prefix depth key :
  S3FolderSizes2Level.folder_of prefix depth key
  = Return (Grouping.depth_key prefix depth key).
Proof.
  unfold S3FolderSizes2Level.folder_of, Grouping.depth_key, Grouping.relative.
  set (rel := if str_truthy prefix then _ else _).
  pose proof (split_single_iff "/" rel) as Hone.
  case_decide as Hlen.
  - apply Hone in Hlen. by rewrite Hlen.
  - destruct (contains_char "/" rel); [done|]. destruct Hlen. by apply Hone.
Qed.

Lemma depth_add_objects_foldl prefix depth contents m :
  S3FolderSizes2Level.add_objects prefix depth contents m
  = Return (foldl (λ acc obj,
              <[Grouping.depth_key prefix depth (Key obj)
                := default 0 (acc !! Grouping.depth_key prefix depth (Key obj)) + Size obj]> acc)
              m contents).
Proof.
  revert m. induction contents as [|obj rest IH]; intros m; simpl; [done|].
  rewrite depth_folder_of. simpl. apply IH.
Qed.

Lemma depth_add_pages_foldl prefix depth ps m :
  Spec.failure_of ps = None →
  S3FolderSizes2Level.add_pages prefix depth ps m
  = Return (foldl (λ acc obj,
              <[Grouping.depth_key prefix depth (Key obj)
                := default 0 (acc !! Grouping.depth_key prefix depth (Key obj)) + Size obj]> acc)
              m (Spec.objects_of ps)).
Proof.
  revert m. induction ps as [|contents rest IH|e]; intros m Hok; simpl; [done| |done].
  rewrite depth_add_objects_foldl. simpl. rewrite IH by done.
  by rewrite foldl_app.
Qed.

End per_key.

(** When the client is available and the listing does not fail, both
    folder scripts return a mapping that holds, for every grouping key,
    exactly the bytes of the listed objects under that key, and no entry
    for a key without objects. *)
Theorem folder_sizes_per_key (aws : s3) (bucket_name prefix : string) (depth : Z) :
  client_error aws = None →
  Spec.failure_of (list_objects_v2 aws bucket_name prefix) = None →
  let objs := Spec.objects_of (list_objects_v2 aws bucket_name prefix) in
  (∃ sizes, S3FolderSizes.get_s3_folder_sizes aws bucket_name prefix = Return sizes
     ∧ ∀ k, sizes !! k
            = match Grouping.keyed (Spec.single_level_key prefix) k objs with
              | [] => None
              | l => Some (Spec.total_bytes l)
              end)
  ∧ (∃ sizes, S3FolderSizes2Level.get_s3_folder_sizes aws bucket_name prefix depth
              = Return sizes
     ∧ ∀ k, sizes !! k
            = match Grouping.keyed (Grouping.depth_key prefix depth) k objs with
              | [] => None
              | l => Some (Spec.total_bytes l)
              end).
Proof.
  intros Hclient Hok objs. split.
  - unfold S3FolderSizes.get_s3_folder_sizes. rewrite Hclient. simpl.
    rewrite single_add_pages_foldl by done. eexists. split; [done|].
    intros k. rewrite grouped_lookup. fold objs.
    destruct (Grouping.keyed _ k objs); [done|]. rewrite lookup_empty. simpl.
    f_equal.
  - unfold S3FolderSizes2Level.get_s3_folder_sizes. rewrite Hclient. simpl.
    rewrite depth_add_pages_foldl by done. eexists. split; [done|].
    intros k. rewrite grouped_lookup. fold objs.
    destruct (Grouping.keyed _ k objs); [done|]. rewrite lookup_empty. simpl.
    f_equal.
Qed.

Lemma folder_sizes_per_key_witness :
  let objs := Spec.objects_of Spec.example_listing in
  (∃ sizes, S3FolderSizes.get_s3_folder_sizes Spec.example_s3 "bucket" "base/"
            = Return sizes
     ∧ ∀ k, sizes !! k
            = match Grouping.keyed (Spec.single_level_key "base/") k objs with
              | [] => None
              | l => Some (Spec.total_bytes l)
              end)
  ∧ (∃ sizes, S3FolderSizes2Level.get_s3_folder_sizes Spec.example_s3 "bucket" "base/" 2
              = Return sizes
     ∧ ∀ k, sizes !! k
            = match Grouping.keyed (Grouping.depth_key "base/" 2) k objs with
              | [] => None
              | l => Some (Spec.total_bytes l)
              end).
Proof.
  apply (folder_sizes_per_key Spec.example_s3 "bucket" "base/" 2); reflexivity.
Defined.

Section subfolders.

Import S3BucketSizesWithFolder.

Lemma subfolder_key_of_spec folder_path obj_key :
  subfolder_key_of folder_path obj_key
  = Return (Grouping.subfolder_key folder_path obj_key).
Proof.
  unfold subfolder_key_of, Grouping.subfolder_key.
  set (rel := str_drop _ _). destruct (contains_char "/" rel); [|done].
  destruct (split_first_segment rel) as [ps ->]. done.
Qed.

Lemma add_object_lookup folder_path obj t t' k :
  result (add_object folder_path obj t) = Return t' →
  subfolder_sizes t' !! k
  = if decide (Grouping.subfolder_key folder_path (Key obj) = k)
    then Some (Grouping.bump (Size obj) (subfolder_sizes t !! k))
    else subfolder_sizes t !! k.
Proof.
  unfold add_object. rewrite subfolder_key_of_spec, lift_return_bind.
  set (key := Grouping.subfolder_key folder_path (Key obj)).
  set (m0 := if decide (subfolder_sizes t !! key = None) then _ else _).
  intros (u & _ & [= <-])%io_bind_result. simpl.
  assert (m0 !! key = Some (default {| size := 0; count := 0 |} (subfolder_sizes t !! key))
          ∧ ∀ j, j ≠ key → m0 !! j = subfolder_sizes t !! j) as [Hkey Hother].
  { subst m0. case_decide as Hnone.
    - rewrite Hnone. split; [apply lookup_insert_eq|].
      intros j Hj. by apply lookup_insert_ne.
    - split; [|done]. by destruct (subfolder_sizes t !! key). }
  destruct (decide (key = k)) as [<-|Hne].
  - rewrite lookup_alter_eq, lookup_alter_eq, Hkey. done.
  - rewrite !lookup_alter_ne by done. by apply Hother.
Qed.

Lemma add_objects_lookup folder_path contents t t' k :
  result (add_objects folder_path contents t) = Return t' →
  subfolder_sizes t' !! k
  = match Grouping.keyed (Grouping.subfolder_key folder_path) k contents with
    | [] => subfolder_sizes t !! k
    | l => Some {| size := size (default {| size := 0; count := 0 |} (subfolder_sizes t !! k))
                           + Spec.total_bytes l;
                   count := count (default {| size := 0; count := 0 |} (subfolder_sizes t !! k))
                            + Z.of_nat (length l) |}
    end.
Proof.
  revert t. induction contents as [|obj rest IH]; intros t; simpl.
  - by intros [= <-].
  - intros (t1 & H1 & H2)%io_bind_result.
    rewrite (IH _ H2), (add_object_lookup _ _ _ _ k H1).
    unfold Grouping.keyed. rewrite filter_cons.
    destruct (decide (Grouping.subfolder_key folder_path (Key obj) = k)) as [Heq|Hne].
    + destruct (filter _ rest) as [|o l]; unfold Grouping.bump, Spec.total_bytes; simpl.
      * do 2 f_equal; lia.
      * f_equal. f_equal; lia.
    + done.
Qed.

Lemma keyed_app key_of k l1 l2 :
  Grouping.keyed key_of k (l1 ++ l2)
  = Grouping.keyed key_of k l1 ++ Grouping.keyed key_of k l2.
Proof. unfold Grouping.keyed. apply filter_app. Qed.

Lemma add_pages_lookup folder_path ps t t' k :
  result (add_pages folder_path ps t) = Return t' →
  subfolder_sizes t' !! k
  = match Grouping.keyed (Grouping.subfolder_key folder_path) k (Spec.objects_of ps) with
    | [] => subfolder_sizes t !! k
    | l => Some {| size := size (default {| size := 0; count := 0 |} (subfolder_sizes t !! k))
                           + Spec.total_bytes l;
                   count := count (default {| size := 0; count := 0 |} (subfolder_sizes t !! k))
                            + Z.of_nat (length l) |}
    end.
Proof.
  revert t. induction ps as [|contents rest IH|e]; intros t; simpl; [|..|done].
  - by intros [= <-].
  - destruct contents as [contents|]; simpl; [|apply IH].
    intros (t1 & H1 & H2)%io_bind_result.
    rewrite (IH _ H2), (add_objects_lookup _ _ _ _ k H1), keyed_app.
    destruct (Grouping.keyed _ k contents) as [|o l] eqn:Hl1;
      destruct (Grouping.keyed _ k (Spec.objects_of rest)) as [|o' l'] eqn:Hl2;
      simpl; try done.
    + by rewrite app_nil_r.
    + rewrite total_bytes_app, length_app. unfold Spec.total_bytes. simpl.
      f_equal. f_equal; lia.
Qed.

End subfolders.

Section subfolder_totality.

Import S3BucketSizesWithFolder.

Lemma format_size_units_returns units n :
  (2 ≤ length units ≤ 6)%nat → units !! 0%nat = Some "B" →
  0 ≤ n < 2 ^ 1023 →
  ∃ shown, Format.format_size_units units n = Return shown.
Proof.
  intros Hlen Hunit [Hlo Hhi].
  destruct (decide (n = 0)) as [->|Hne]; [by eexists|].
  destruct (format_size_units_positive units n Hlen ltac:(lia))
    as (k & q & unit & _ & _ & _ & _ & _ & _ & ->).
  by eexists.
Qed.

Lemma add_object_returns folder_path obj t :
  0 ≤ total_size t + Size obj < 2 ^ 1023 →
  ∃ t', result (add_object folder_path obj t) = Return t'
        ∧ total_size t' = total_size t + Size obj.
Proof.
  intros Hbound. unfold add_object.
  rewrite subfolder_key_of_spec, lift_return_bind.
  destruct (format_size_units_returns units (total_size t + Size obj))
    as [shown Hshown]; [simpl; lia|done|done|].
  eexists. split.
  - apply io_bind_result. eexists. split; [|done].
    destruct (_ =? 0); [|done].
    unfold format_size. rewrite Hshown. done.
  - done.
Qed.

Lemma add_objects_returns folder_path contents t :
  Forall (λ obj, 0 ≤ Size obj) contents →
  0 ≤ total_size t →
  total_size t + Spec.total_bytes contents < 2 ^ 1023 →
  ∃ t', result (add_objects folder_path contents t) = Return t'
        ∧ total_size t' = total_size t + Spec.total_bytes contents.
Proof.
  revert t. induction contents as [|obj rest IH]; intros t Hall Hlo Hhi; simpl.
  - exists t. split; [done|]. unfold Spec.total_bytes. simpl. lia.
  - apply Forall_cons in Hall as [Hobj Hrest].
    assert (0 ≤ Spec.total_bytes rest) as Hnonneg.
    { clear -Hrest. induction Hrest; unfold Spec.total_bytes in *; simpl; lia. }
    unfold Spec.total_bytes in Hhi. simpl in Hhi.
    fold (Spec.total_bytes rest) in Hhi.
    destruct (add_object_returns folder_path obj t) as (t1 & H1 & Ht1); [lia|].
    destruct (IH t1 Hrest) as (t' & H' & Ht'); [lia|lia|].
    exists t'. split.
    + apply io_bind_result. eauto.
    + unfold Spec.total_bytes in *. simpl. lia.
Qed.

Lemma total_bytes_nonneg objs :
  Forall (λ obj, 0 ≤ Size obj) objs → 0 ≤ Spec.total_bytes objs.
Proof. induction 1; unfold Spec.total_bytes in *; simpl; lia. Qed.

Lemma add_pages_returns folder_path ps t :
  Spec.failure_of ps = None →
  Forall (λ obj, 0 ≤ Size obj) (Spec.objects_of ps) →
  0 ≤ total_size t →
  total_size t + Spec.total_bytes (Spec.objects_of ps) < 2 ^ 1023 →
  ∃ t', result (add_pages folder_path ps t) = Return t'.
Proof.
  revert t. induction ps as [|contents rest IH|e]; intros t Hok Hall Hlo Hhi; simpl;
    [by eexists| |done].
  simpl in Hall, Hhi, Hok. apply Forall_app in Hall as [Hc Hr].
  rewrite total_bytes_app in Hhi.
  pose proof (total_bytes_nonneg _ Hc). pose proof (total_bytes_nonneg _ Hr).
  destruct contents as [contents|]; simpl in *.
  - destruct (add_objects_returns folder_path contents t Hc Hlo) as (t1 & H1 & Ht1); [lia|].
    destruct (IH t1 Hok Hr) as [t' H']; [lia|lia|].
    exists t'. apply io_bind_result. eauto.
  - apply IH; first [done|unfold Spec.total_bytes in Hhi; simpl in Hhi; lia].
Qed.

End subfolder_totality.

(** [get_folder_size_s3] on a listing that does not fail, with
    non-negative object sizes whose sum stays below 2^1023: it returns the
    folder path with a final "/" added if it was missing (the empty path
    stays empty), the bytes and the number of all listed objects, and a
    mapping that holds for every subfolder key exactly the bytes and the
    number of the objects under that key, with no entry for a key without
    objects. *)
Theorem folder_size_per_subfolder (aws : s3) (bucket_name folder_path : string) :
  let fp := Grouping.normalised folder_path in
  let objs := Spec.objects_of (list_objects_v2 aws bucket_name fp) in
  client_error aws = None →
  Spec.failure_of (list_objects_v2 aws bucket_name fp) = None →
  Forall (λ obj, 0 ≤ Size obj) objs →
  Spec.total_bytes objs < 2 ^ 1023 →
  ∃ sub,
    result (S3BucketSizesWithFolder.get_folder_size_s3 aws bucket_name folder_path)
    = Return (fp, Spec.total_bytes objs, Z.of_nat (length objs), sub)
    ∧ ∀ k, sub !! k
           = match Grouping.keyed (Grouping.subfolder_key fp) k objs with
             | [] => None
             | l => Some {| S3BucketSizesWithFolder.size := Spec.total_bytes l;
                            S3BucketSizesWithFolder.count := Z.of_nat (length l) |}
             end.
Proof.
  intros fp objs Hclient Hok Hall Hbound.
  unfold S3BucketSizesWithFolder.get_folder_size_s3.
  fold (Grouping.normalised folder_path). fold fp.
  set (t0 := {| S3BucketSizesWithFolder.total_size := 0;
                S3BucketSizesWithFolder.object_count := 0;
                S3BucketSizesWithFolder.subfolder_sizes := ∅ |}).
  destruct (add_pages_returns fp (list_objects_v2 aws bucket_name fp) t0)
    as [t Ht]; [done|done|done| |].
  { change (0 + Spec.total_bytes objs < 2 ^ 1023). lia. }
  assert (Spec.balanced t0) as Hb0.
  { split; [apply (total_empty S3BucketSizesWithFolder.size)
           |apply (total_empty S3BucketSizesWithFolder.count)]. }
  destruct (add_pages_balanced _ _ _ _ Hb0 Ht) as (_ & Htotal & Hcount & _).
  exists (S3BucketSizesWithFolder.subfolder_sizes t). split.
  - rewrite Hclient. unfold try_catch, mbind, io_bind. simpl. rewrite Ht. simpl.
    subst t0. simpl in *. rewrite Htotal, Hcount. fold objs. do 3 f_equal; lia.
  - intros k. rewrite (add_pages_lookup _ _ _ _ k Ht). fold objs.
    destruct (Grouping.keyed _ k objs); [done|]. subst t0. simpl.
    rewrite lookup_empty. simpl. done.
Qed.

Lemma folder_size_per_subfolder_witness :
  ∃ sub,
    result (S3BucketSizesWithFolder.get_folder_size_s3 Spec.example_s3 "bucket" "base")
    = Return ("base/", 20, 4, sub)
    ∧ ∀ k, sub !! k
           = match Grouping.keyed (Grouping.subfolder_key "base/") k
                     (Spec.objects_of Spec.example_listing) with
             | [] => None
             | l => Some {| S3BucketSizesWithFolder.size := Spec.total_bytes l;
                            S3BucketSizesWithFolder.count := Z.of_nat (length l) |}
             end.
Proof.
  apply (folder_size_per_subfolder Spec.example_s3 "bucket" "base").
  - reflexivity.
  - reflexivity.
  - repeat constructor; simpl; lia.
  - apply Z.ltb_lt. vm_compute. reflexivity.
Defined.

Section parsing.

Lemma append_cons c s t : String c s +:+ t = String c (s +:+ t).
Proof. done. Qed.

Lemma split1_cases s :
  (contains_char "/" s = false ∧ split1 "/" s = [s])
  ∨ (∃ b rest, s = b +:+ "/" +:+ rest
               ∧ contains_char "/" b = false
               ∧ split1 "/" s = [b; rest]).
Proof.
  induction s as [|c s IH]; simpl; [by left|].
  destruct (Ascii.eqb_spec c "/") as [->|Hne].
  - right. by exists EmptyString, s.
  - destruct IH as [[Hno ->]|(b & rest & -> & Hb & ->)].
    + left. done.
    + right. exists (String c b), rest. split; [done|]. split; [|done].
      simpl. by rewrite (proj2 (Ascii.eqb_neq c "/") Hne).
Qed.

End parsing.

(** [parse_bucket_and_prefix] always returns: an argument without "/" is
    the bucket, with the empty prefix; otherwise the bucket is the part
    before the first "/" and the prefix is the rest with a "/" appended
    (so "bucket/" gives the prefix "/"). The bucket never holds a "/". *)
Theorem parse_bucket_and_prefix_shape (arg : string) :
  ∃ bucket prefix,
    S3FolderSizes.parse_bucket_and_prefix arg = Return (bucket, prefix)
    ∧ S3FolderSizes2Level.parse_bucket_and_prefix arg = Return (bucket, prefix)
    ∧ contains_char "/" bucket = false
    ∧ ((contains_char "/" arg = false ∧ bucket = arg ∧ prefix = "")
       ∨ (∃ rest, arg = bucket +:+ "/" +:+ rest ∧ prefix = rest +:+ "/")).
Proof.
  unfold S3FolderSizes.parse_bucket_and_prefix, S3FolderSizes2Level.parse_bucket_and_prefix,
    Validation.parse_bucket_and_prefix.
  destruct (split1_cases arg) as [[Hno ->]|(b & rest & -> & Hb & ->)].
  - exists arg, "". repeat split; try done. by left.
  - exists b, (rest +:+ "/"). repeat split; try done. right. by exists rest.
Qed.

(** [parse_folder_path] always returns: after one leading "s3://" is
    removed, an argument without "/" is the bucket, with the empty path;
    otherwise the bucket is the part before the first "/" and the path is
    everything after it. The bucket never holds a "/", and the URI form of
    an argument parses like its plain form. *)
Theorem parse_folder_path_shape (folder_arg : string) :
  let arg := if startswith "s3://" folder_arg then str_drop 5 folder_arg
             else folder_arg in
  (∃ bucket path,
      S3BucketSizesWithFolder.parse_folder_path folder_arg = Return (bucket, path)
      ∧ contains_char "/" bucket = false
      ∧ ((contains_char "/" arg = false ∧ bucket = arg ∧ path = "")
         ∨ arg = bucket +:+ "/" +:+ path))
  ∧ (startswith "s3://" folder_arg = false →
     S3BucketSizesWithFolder.parse_folder_path ("s3://" +:+ folder_arg)
     = S3BucketSizesWithFolder.parse_folder_path folder_arg).
Proof.
  intros arg. split.
  - unfold S3BucketSizesWithFolder.parse_folder_path. fold arg.
    destruct (split1_cases arg) as [[Hno ->]|(b & rest & Harg & Hb & ->)].
    + exists arg, "". repeat split; try done. by left.
    + exists b, rest. repeat split; try done. by right.
  - intros Hplain. unfold S3BucketSizesWithFolder.parse_folder_path.
    rewrite Hplain. done.
Qed.

Section exclusion.

Lemma lower_char_newline c : Ascii.eqb (lower_char c) "010" = Ascii.eqb c "010".
Proof. destruct c as [[] [] [] [] [] [] [] []]; vm_compute; reflexivity. Qed.

Lemma lower_no_newline s : contains_char "010" (lower s) = contains_char "010" s.
Proof.
  induction s as [|c s IH]; simpl; [done|]. by rewrite lower_char_newline, IH.
Qed.

Lemma run_dot_all s :
  contains_char "010" s = false → Re.run Re.dot None s = String.length s.
Proof.
  induction s as [|c s IH]; simpl; [done|].
  unfold Re.dot at 1. destruct (Ascii.eqb c "010"); [done|].
  simpl. intros H. by rewrite IH.
Qed.

Lemma match_here_lit c re at_start s groups :
  Re.match_here (Re.lit c :: re) at_start s groups
  = match s with
    | String c' s' => if Ascii.eqb c c' then Re.match_here re false s' groups else None
    | EmptyString => None
    end.
Proof.
  destruct s as [|c' s']; [done|].
  unfold Re.lit. cbn [Re.match_here Re.run fmap option_fmap option_map pred].
  destruct (Ascii.eqb c c'); [|done].
  assert (Re.run (Ascii.eqb c) (Some 0%nat) s' = 0%nat) as -> by (by destruct s').
  cbn [Re.longest_first Nat.ltb Nat.leb str_drop Nat.eqb].
  rewrite andb_false_r. by destruct (Re.match_here re false s' groups).
Qed.

Lemma match_here_tail cls max at_start s groups :
  Re.match_here [Re.Rep cls 0 max false] at_start s groups = Some groups.
Proof. simpl. by destruct (Re.run cls max s). Qed.

Lemma match_here_db at_start s groups :
  Re.match_here (Re.lits "db-" ++ [Re.Rep Re.dot 0 None false]) at_start s groups
  = if startswith "db-" s then Some groups else None.
Proof.
  cbn [Re.lits app]. rewrite match_here_lit.
  destruct s as [|c1 s]; [done|]. cbn [startswith].
  destruct (Ascii.eqb "d" c1); [|done]. rewrite match_here_lit.
  destruct s as [|c2 s]; [done|]. destruct (Ascii.eqb "b" c2); [|done].
  rewrite match_here_lit.
  destruct s as [|c3 s]; [done|]. destruct (Ascii.eqb "-" c3); [|done].
  apply match_here_tail.
Qed.

Lemma longest_first_exists {A} n min (k : nat → option A) m :
  (min ≤ m ≤ n)%nat → is_Some (k m) → is_Some (Re.longest_first n min k).
Proof.
  intros Hm Hk. induction n as [|n IH].
  - assert (m = 0)%nat as -> by lia. simpl.
    destruct (Nat.ltb_spec 0 min); [lia|]. destruct Hk as [r ->]. by eexists.
  - simpl. destruct (Nat.ltb_spec (S n) min); [lia|].
    destruct (k (S n)) as [r|] eqn:HkS; [by eexists|].
    destruct (decide (m = S n)) as [->|Hne].
    { rewrite HkS in Hk. by destruct Hk. }
    apply IH. lia.
Qed.

Lemma contains_positions sub s :
  contains sub s = true
  ↔ ∃ n, (n ≤ String.length s)%nat ∧ startswith sub (str_drop n s) = true.
Proof.
  induction s as [|c s IH].
  - simpl. destruct (startswith sub "") eqn:Hs.
    + split; [|done]. intros _. exists 0%nat. done.
    + split; [done|]. intros (n & Hn & Hsub).
      assert (n = 0)%nat as -> by (simpl in Hn; lia). simpl in Hsub. congruence.
  - cbn [contains]. destruct (startswith sub (String c s)) eqn:Hs.
    + split; [|done]. intros _. exists 0%nat. split; [simpl; lia|done].
    + rewrite IH. split.
      * intros (n & Hn & Hsub). exists (S n). split; [simpl; lia|done].
      * intros ([|n] & Hn & Hsub); [simpl in Hsub; congruence|].
        exists n. split; [simpl in Hn; lia|done].
Qed.

Lemma db_pattern_contains s :
  contains_char "010" s = false →
  (is_Some (Re.re_match S3BucketSizesFast.DB_PATTERN s) ↔ contains "db-" s = true).
Proof.
  intros Hline. unfold Re.re_match, S3BucketSizesFast.DB_PATTERN.
  cbn [app Re.match_here]. rewrite (run_dot_all s Hline), contains_positions.
  split.
  - intros [r Hr]. apply longest_first_some in Hr as (m & Hm & Hk).
    rewrite match_here_db in Hk. exists m. split; [lia|].
    by destruct (startswith "db-" (str_drop m s)).
  - intros (n & Hn & Hsub). apply (longest_first_exists _ _ _ n); [lia|].
    rewrite match_here_db, Hsub. by eexists.
Qed.

End exclusion.

Section kept_names.

Lemma excluded_kept name :
  contains_char "010" name = false →
  S3BucketSizesFast.excluded name = false ↔ Exclusion.kept name.
Proof.
  intros Hline. unfold S3BucketSizesFast.excluded, Exclusion.kept.
  pose proof (db_pattern_contains (lower name)) as Hdb.
  rewrite lower_no_newline in Hdb. specialize (Hdb Hline).
  destruct (contains "lifecycle" (lower name)); [split; [done|by intros [? _]]|].
  destruct (contains "logs" (lower name)); [split; [done|by intros (_ & ? & _)]|].
  destruct (Re.re_match S3BucketSizesFast.DB_PATTERN (lower name)) as [g|].
  - assert (contains "db-" (lower name) = true) as -> by (apply Hdb; by eexists).
    split; [done|by intros (_ & _ & ?)].
  - destruct (contains "db-" (lower name)); [|done].
    destruct (proj2 Hdb eq_refl) as [? ?]. done.
Qed.

Lemma filter_kept buckets :
  Forall (λ name, contains_char "010" name = false) buckets →
  filter (λ name, S3BucketSizesFast.excluded name = false) buckets
  = filter Exclusion.kept buckets.
Proof.
  induction 1 as [|name rest Hname Hrest IH]; [done|].
  rewrite !filter_cons, IH.
  destruct (decide (S3BucketSizesFast.excluded name = false)) as [Hex|Hex];
    destruct (decide (Exclusion.kept name)) as [Hk|Hk]; try done.
  - destruct Hk. by apply excluded_kept.
  - destruct Hex. by apply excluded_kept.
Qed.

End kept_names.

(** The fast script's bucket enumeration, on a successful listing of names
    without line breaks: it returns, in the order of the response, exactly
    the names whose lower-case form contains none of "lifecycle", "logs"
    and "db-" (so the exclusions ignore letter case), and prints nothing. *)
Theorem fast_bucket_names_kept (aws : s3) (buckets : list string) :
  client_error aws = None →
  list_buckets aws = Ok buckets →
  Forall (λ name, contains_char "010" name = false) buckets →
  S3BucketSizesFast.get_all_bucket_names aws
  = IO (Return (filter Exclusion.kept buckets)) [].
Proof.
  intros Hclient Hlist Hlines.
  unfold S3BucketSizesFast.get_all_bucket_names. rewrite Hclient, Hlist.
  unfold try_catch. simpl. by rewrite filter_buckets_spec, filter_kept.
Qed.

Lemma fast_bucket_names_kept_witness :
  S3BucketSizesFast.get_all_bucket_names
    {| client_error := None;
       list_buckets := Ok ["data"; "My-LOGS-2024"; "rdb-backup"; "photos"; "LifeCycle-x"];
       list_objects_v2 := λ _ _, Exhausted |}
  = IO (Return (filter Exclusion.kept
                  ["data"; "My-LOGS-2024"; "rdb-backup"; "photos"; "LifeCycle-x"])) [].
Proof.
  apply fast_bucket_names_kept; [reflexivity|reflexivity|].
  repeat constructor.
Defined.

Example fast_bucket_names_example :
  filter Exclusion.kept ["data"; "My-LOGS-2024"; "rdb-backup"; "photos"; "LifeCycle-x"]
  = ["data"; "photos"].
Proof. vm_compute. reflexivity. Qed.

Section cli_loop.

Import S3BucketSizesCli.






End cli_loop.



Section summaries.




End summaries.

Section fast_report.

Import Metrics S3BucketSizesFast.





End fast_report.


Section cli_report.

Import S3BucketSizesCli.





End cli_report.



Example fast_main_example :
  S3BucketSizesFast.main None Report.three_buckets Spec.example_cloudwatch_partial
    [2; 0; 1]%nat
  = IO (Return ())
       [CredentialsVerified; BucketsFound 3;
        WorkerProgress 3 3 "c" "1.95 KB"; WorkerProgress 1 3 "a" "1.95 KB";
        MetricsWarning "bad" (Exn "throttled"); WorkerProgress 2 3 "bad" "0 B";
        SummaryRow "c" "1.95 KB"; SummaryRow "a" "1.95 KB"; SummaryRow "bad" "0 B";
        SummaryTotal "3.91 KB"].
Proof. vm_compute. reflexivity. Qed.

Example cli_main_example :
  S3BucketSizesCli.main Report.working_cli Report.three_buckets
  = IO (Return ())
       [CliVersion "aws-cli/2.15.0"; BucketsFound 4;
        CliProgress 1 4 "a" "4.00 KB"; CliProgress 2 4 "my-logs" "4.00 KB";
        CliProgress 3 4 "bad" "4.00 KB"; CliProgress 4 4 "c" "4.00 KB";
        SummaryRow "a" "4.00 KB"; SummaryRow "my-logs" "4.00 KB";
        SummaryRow "bad" "4.00 KB"; SummaryRow "c" "4.00 KB";
        SummaryTotal "16.00 KB"].
Proof. vm_compute. reflexivity. Qed.

Section first_latest.

Import Metrics.

Lemma max_from_first best items :
  (∀ d, d ∈ items → Timestamp d ≤ Timestamp best) →
  max_from Timestamp best items = best.
Proof.
  induction items as [|x rest IH]; intros Hle; simpl; [done|].
  destruct (Z.ltb_spec (Timestamp best) (Timestamp x)) as [Hlt|_].
  - specialize (Hle x (list_elem_of_here _ _)). lia.
  - apply IH. intros d Hd. by apply Hle, list_elem_of_further.
Qed.

Lemma max_from_later best older latest newer :
  (∀ d, d ∈ best :: older → Timestamp d < Timestamp latest) →
  (∀ d, d ∈ newer → Timestamp d ≤ Timestamp latest) →
  max_from Timestamp best (older ++ latest :: newer) = latest.
Proof.
  revert best. induction older as [|x rest IH]; intros best Hold Hnew; simpl.
  - pose proof (Hold best (list_elem_of_here _ _)) as Hbest.
    destruct (Z.ltb_spec (Timestamp best) (Timestamp latest)); [|lia].
    by apply max_from_first.
  - apply IH; [|done]. intros d [->|Hd]%elem_of_cons.
    + destruct (_ <? _); apply Hold; [apply list_elem_of_further|]; apply list_elem_of_here.
    + by apply Hold, list_elem_of_further, list_elem_of_further.
Qed.

End first_latest.

(** Which data point the metrics query uses: when the default tier
    answers with data points of which [latest] is the first one carrying
    the greatest timestamp (all before it are strictly older, none after it
    is newer), [get_bucket_size_cloudwatch] returns the integer part of the
    average of [latest], truncated towards zero, and prints nothing. *)
Theorem cloudwatch_uses_first_latest (cw : cloudwatch) (bucket_name : string)
    (older newer : list datapoint) (latest : datapoint) :
  cw_client_error cw = None →
  get_metric_statistics cw Primary bucket_name "StandardStorage"
  = Ok (older ++ latest :: newer) →
  (∀ d, d ∈ older → Timestamp d < Timestamp latest) →
  (∀ d, d ∈ newer → Timestamp d ≤ Timestamp latest) →
  Metrics.get_bucket_size_cloudwatch cw bucket_name
  = IO (Return (bucket_name,
                Z.quot (Qnum (Average latest)) (Z.pos (Qden (Average latest))))) [].
Proof.
  intros Hclient Hprimary Hold Hnew.
  unfold Metrics.get_bucket_size_cloudwatch.
  rewrite (query_size_answered _ _ _ Hclient Hprimary).
  assert (Metrics.latest_size (older ++ latest :: newer)
          = Return (int_of_float (Average latest))) as Hlatest.
  { unfold Metrics.latest_size. destruct older as [|best older]; simpl.
    - by rewrite max_from_first.
    - rewrite max_from_later; [done| |done].
      intros d Hd. by apply Hold. }
  assert (list_truthy (older ++ latest :: newer) = true) as -> by (by destruct older).
  by rewrite Hlatest.
Qed.

Lemma cloudwatch_uses_first_latest_witness :
  Metrics.get_bucket_size_cloudwatch Spec.example_cloudwatch_primary "bucket"
  = IO (Return ("bucket", Z.quot 12345 2)) [].
Proof.
  apply (cloudwatch_uses_first_latest Spec.example_cloudwatch_primary "bucket"
           [ {| Timestamp := 100; Average := 4096 # 1 |} ]
           [ {| Timestamp := 50; Average := 7 # 1 |} ]
           {| Timestamp := 86500; Average := 12345 # 2 |} eq_refl eq_refl).
  - intros d ->%list_elem_of_singleton. simpl. lia.
  - intros d ->%list_elem_of_singleton. simpl. lia.
Defined.

Section segments.

Lemma join_cons_char c p ps :
  join "/" (String c p :: ps) = String c (join "/" (p :: ps)).
Proof. by destruct ps. Qed.

Lemma join_empty_head ps :
  ps ≠ [] → join "/" (EmptyString :: ps) = String "/" (join "/" ps).
Proof. by destruct ps. Qed.

Lemma join_split s : join "/" (split "/" s) = s.
Proof.
  induction s as [|c s IH]; [done|]. cbn [split].
  destruct (split_nonempty "/" s) as (p & ps & Hs). rewrite Hs in IH |- *.
  destruct (Ascii.eqb_spec c "/") as [->|_].
  - rewrite join_empty_head by done. by rewrite IH.
  - rewrite join_cons_char. by rewrite IH.
Qed.

Lemma join_take_prefix d s :
  startswith (join "/" (take d (split "/" s))) s = true.
Proof.
  revert d. induction s as [|c s IH]; intros [|d]; try done.
  - by destruct d.
  - cbn [split].
    destruct (split_nonempty "/" s) as (p & ps & Hs).
    specialize (IH d) as IHd. specialize (IH (S d)) as IHS. rewrite Hs in *.
    destruct (Ascii.eqb_spec c "/") as [->|_].
    + cbn [take]. destruct d as [|d]; [done|].
      rewrite join_empty_head by done. cbn [startswith]. by rewrite Ascii.eqb_refl.
    + cbn [take]. rewrite join_cons_char. cbn [startswith].
      rewrite Ascii.eqb_refl. exact IHS.
Qed.

End segments.

(** The grouping key of the depth-parameterised script, for a key with a
    separator after the prefix: it is never raised on; it is always a prefix
    of the relative key when the depth is not negative; it is the whole
    relative key, file name included, when the key has no more than [depth]
    segments (so with the default depth 2 the object "a/x.txt" is grouped
    under "a/x.txt", not under "a"); and it is empty at depth 0. *)
Theorem depth_key_is_prefix (prefix key : string) (depth : Z) :
  let rel := Grouping.relative prefix key in
  contains_char "/" rel = true →
  0 ≤ depth →
  ∃ folder,
    S3FolderSizes2Level.folder_of prefix depth key = Return folder
    ∧ startswith folder rel = true
    ∧ (Z.of_nat (length (split "/" rel)) ≤ depth → folder = rel)
    ∧ (depth = 0 → folder = "").
Proof.
  intros rel Hslash Hdepth. rewrite depth_folder_of.
  exists (Grouping.depth_key prefix depth key). split; [done|].
  unfold Grouping.depth_key. fold rel. rewrite Hslash. unfold slice_to.
  destruct (Z.ltb_spec depth 0) as [?|_]; [lia|].
  split; [apply join_take_prefix|]. split.
  - intros Hlen. rewrite take_ge by lia. apply join_split.
  - by intros ->.
Qed.

Lemma depth_key_is_prefix_witness :
  ∃ folder,
    S3FolderSizes2Level.folder_of "base/" 2 "base/a/x.txt" = Return folder
    ∧ startswith folder "a/x.txt" = true
    ∧ (Z.of_nat (length (split "/" "a/x.txt")) ≤ 2 → folder = "a/x.txt")
    ∧ ((2:Z) = 0 → folder = "").
Proof.
  apply (depth_key_is_prefix "base/" "base/a/x.txt" 2); [reflexivity|lia].
Defined.

Section folder_main.


End folder_main.



Section display.

Lemma startswith_app p s : startswith p (p +:+ s) = true.
Proof.
  induction p as [|c p IH]; [done|]. rewrite append_cons. cbn [startswith].
  by rewrite Ascii.eqb_refl.
Qed.

Lemma str_app_assoc a b c : (a +:+ b) +:+ c = a +:+ (b +:+ c).
Proof. induction a as [|x a IH]; [done|]. by rewrite !append_cons, IH. Qed.

Lemma length_app_str a b :
  String.length (a +:+ b) = (String.length a + String.length b)%nat.
Proof. induction a as [|x a IH]; [done|]. rewrite append_cons. simpl. by rewrite IH. Qed.

Lemma endswith_char_app c a b :
  b ≠ EmptyString → endswith_char c (a +:+ b) = endswith_char c b.
Proof.
  intros Hb. induction a as [|x a IH]; [done|].
  rewrite append_cons. cbn [endswith_char]. destruct (a +:+ b) eqn:Hab; [|done].
  destruct a; [by destruct b|done].
Qed.

Lemma take_app_length a b : str_take (String.length a) (a +:+ b) = a.
Proof.
  induction a as [|x a IH]; [by destruct b|]. rewrite append_cons. simpl.
  by rewrite IH.
Qed.

Lemma display_strip (s : string) :
  endswith_char "/" (s +:+ "/") = true
  ∧ str_take (String.length (s +:+ "/") - 1) (s +:+ "/") = s.
Proof.
  split.
  - by rewrite endswith_char_app.
  - rewrite length_app_str. simpl.
    replace (String.length s + 1 - 1)%nat with (String.length s) by lia.
    apply take_app_length.
Qed.

End display.

(** What the breakdown of [main] shows for the key under which
    [get_folder_size_s3] counted an object, when [main] was given
    [folder_path]. The key starts with the normalised path (with its final
    "/"), and [main] removes the path as it was given: for a path given
    without a final "/", every name is shown with a leading "/", the
    direct files as "/(archivos directos)"; for a path given with a final
    "/", or the empty path, a subfolder is shown under its own name and
    the direct files as "(archivos directos)", and so are the objects of a
    subfolder whose name is empty (a key with two adjacent separators). *)
Theorem display_name_of_subfolder_key (folder_path obj_key : string) :
  let fp := Grouping.normalised folder_path in
  let rel := str_drop (String.length fp) obj_key in
  let lead :=
    if str_truthy folder_path && negb (endswith_char "/" folder_path)
    then "/" else "" in
  ∃ k,
    S3BucketSizesWithFolder.subfolder_key_of fp obj_key = Return k
    ∧ Breakdown.display_name folder_path k
      = if contains_char "/" rel
        then (if str_truthy (lead +:+ Spec.first_segment rel)
              then lead +:+ Spec.first_segment rel
              else "(archivos directos)")
        else lead +:+ "(archivos directos)".
Proof.
  intros fp rel lead. rewrite subfolder_key_of_spec. eexists. split; [done|].
  unfold Grouping.subfolder_key. fold rel.
  assert (fp = folder_path +:+ lead) as Hfp.
  { unfold fp, lead, Grouping.normalised.
    destruct (_ && _); [done|]. by rewrite str_app_nil_r. }
  unfold Breakdown.display_name.
  destruct (contains_char "/" rel).
  - rewrite Hfp, !str_app_assoc, startswith_app, drop_app_length.
    rewrite <-str_app_assoc.
    destruct (display_strip (lead +:+ Spec.first_segment rel)) as [-> ->].
    by destruct (str_truthy (lead +:+ Spec.first_segment rel)).
  - rewrite Hfp, !str_app_assoc, startswith_app, drop_app_length.
    rewrite endswith_char_app by done. cbn [endswith_char Ascii.eqb].
    vm_compute (endswith_char _ _). cbv iota.
    by destruct lead.
Qed.

(** For the folder argument "base": a subfolder and the direct files as
    [main] shows them. *)
Example display_name_example :
  Breakdown.display_name "base" "base/sub/" = "/sub"
  ∧ Breakdown.display_name "base" "base/(archivos directos)" = "/(archivos directos)"
  ∧ Breakdown.display_name "base/" "base/sub/" = "sub"
  ∧ Breakdown.display_name "base/" "base//" = "(archivos directos)".
Proof. by vm_compute. Qed.
